(** * financial_analysis: cache resolution and indicator engine

    A shallow embedding of [src/analysis.py], [src/database.py],
    [src/datafetch.py] and of the cache coordinator of [src/main.py],
    followed by the properties of the specification that concern them.

    Numbers.  The program computes on IEEE doubles through pandas.  A
    value is modelled as an exact rational or one of the special values
    [+inf], [-inf], [NaN]; the special values follow the IEEE rules that
    decide what pandas prints for a division by zero, rounding of finite
    values is not modelled and zero carries no sign.  pandas' "undefined"
    entry of a series is [NaN].  Where rounding decides whether a
    statement holds, the module [Doubles] evaluates the same operations on
    binary64 values.

    Dates.  The bars of the feed are end-of-day bars, stamped at midnight:
    in memory a date is the text of its day, [YYYY-MM-DD], and text order
    is calendar order.  The store keeps a date as the text of a timestamp,
    [YYYY-MM-DD 00:00:00.000000], and that is the text its queries
    compare. *)

From Stdlib Require Import QArith Qabs Qminmax Qpower Lqa Lia.
From Stdlib Require PrimFloat Uint63 FloatOps FloatAxioms.
From stdpp Require Import base option list gmap strings sorting pretty.

Local Open Scope Q_scope.

(* ================================================================= *)
(** ** Floating values *)

Module Float.

Inductive fval : Type :=
| Fin (q : Q)
| PInf
| NInf
| NaN.

Definition Qzerob (q : Q) : bool := (Qnum q =? 0)%Z.
Definition Qposb (q : Q) : bool := (0 <? Qnum q)%Z.
Definition Qnegb (q : Q) : bool := (Qnum q <? 0)%Z.

Definition inf_of_sign (positive : bool) : fval :=
  if positive then PInf else NInf.

Definition is_nan (v : fval) : bool :=
  match v with NaN => true | _ => false end.

Definition finite (v : fval) : option Q :=
  match v with Fin q => Some q | _ => None end.

Definition fopp (v : fval) : fval :=
  match v with
  | Fin q => Fin (- q)
  | PInf => NInf
  | NInf => PInf
  | NaN => NaN
  end.

Definition fabs (v : fval) : fval :=
  match v with
  | Fin q => Fin (Qabs q)
  | PInf | NInf => PInf
  | NaN => NaN
  end.

Definition fadd (a b : fval) : fval :=
  match a, b with
  | NaN, _ | _, NaN => NaN
  | Fin x, Fin y => Fin (x + y)
  | PInf, NInf | NInf, PInf => NaN
  | PInf, _ | _, PInf => PInf
  | NInf, _ | _, NInf => NInf
  end.

Definition fsub (a b : fval) : fval := fadd a (fopp b).

Definition fmul (a b : fval) : fval :=
  match a, b with
  | NaN, _ | _, NaN => NaN
  | Fin x, Fin y => Fin (x * y)
  | Fin x, PInf | PInf, Fin x =>
      if Qzerob x then NaN else inf_of_sign (Qposb x)
  | Fin x, NInf | NInf, Fin x =>
      if Qzerob x then NaN else inf_of_sign (Qnegb x)
  | PInf, PInf | NInf, NInf => PInf
  | PInf, NInf | NInf, PInf => NInf
  end.

(** Division keeps the IEEE cases apart: [x/0] is an infinity of the sign
    of [x] when [x <> 0] and [NaN] when [x = 0]. *)
Definition fdiv (a b : fval) : fval :=
  match a, b with
  | NaN, _ | _, NaN => NaN
  | Fin x, Fin y =>
      if Qzerob y
      then (if Qzerob x then NaN else inf_of_sign (Qposb x))
      else Fin (x / y)
  | Fin _, (PInf | NInf) => Fin 0
  | PInf, Fin y => inf_of_sign (negb (Qnegb y))
  | NInf, Fin y => inf_of_sign (Qnegb y)
  | (PInf | NInf), (PInf | NInf) => NaN
  end.

(** Comparisons are false as soon as one side is [NaN]. *)
Definition fltb (a b : fval) : bool :=
  match a, b with
  | NaN, _ | _, NaN => false
  | Fin x, Fin y => Qnegb (x - y)
  | PInf, _ | _, NInf => false
  | NInf, _ | _, PInf => true
  end.

Definition fgtb (a b : fval) : bool := fltb b a.

Definition feqb (a b : fval) : bool :=
  match a, b with
  | Fin x, Fin y => Qeq_bool x y
  | PInf, PInf | NInf, NInf => true
  | _, _ => false
  end.

(** [max] of two values where a [NaN] operand is skipped, as the
    reductions of pandas do with [skipna=True]. *)
Definition fmax_skipna (a b : fval) : fval :=
  match a, b with
  | NaN, v | v, NaN => v
  | _, _ => if fltb a b then b else a
  end.

(** Two values are the same number: rationals up to [Qeq]. *)
Definition feq (a b : fval) : Prop :=
  match a, b with
  | Fin x, Fin y => x == y
  | PInf, PInf | NInf, NInf | NaN, NaN => True
  | _, _ => False
  end.

End Float.
Export Float.

Infix "=f=" := feq (at level 70, no associativity).

(* ================================================================= *)
(** ** Python outcomes *)

Module Py.

(** The exceptions the embedded code can raise. [RemoteError] stands for
    whatever the Tiingo client or the transport raises, with its message
    ([str(e)]); [OperationalError] is what the SQL engine raises. *)
Inductive exn : Type :=
| ValueError (msg : string)
| KeyError (key : string)
| NameError (name : string)
| OperationalError (msg : string)
| RemoteError (msg : string).

Inductive result (A : Type) : Type :=
| Ok (a : A)
| Raise (e : exn).
Arguments Ok {A} a.
Arguments Raise {A} e.

Definition rbind {A B} (r : result A) (k : A → result B) : result B :=
  match r with
  | Ok a => k a
  | Raise e => Raise e
  end.

#[export] Instance result_ret : MRet result := λ A a, Ok a.
#[export] Instance result_bind : MBind result := λ A B k r, rbind r k.

Definition str (e : exn) : string :=
  match e with
  | ValueError m | OperationalError m | RemoteError m => m
  | KeyError k => "'" +:+ k +:+ "'"
  | NameError n => "name '" +:+ n +:+ "' is not defined"
  end.

End Py.
Export Py.

(* ================================================================= *)
(** ** The pandas operations the program calls *)

Module Pandas.

(** A series is the list of its values in index order. *)
Abbreviation Series := (list fval).

(** A frame as the analyzer sees it: its columns by name.  Observations
    read from the store or the feed are finite. *)
Abbreviation Frame := (gmap string (list Q)).

Definition of_obs (xs : list Q) : Series := Fin <$> xs.

(** [df[c]] *)
Definition getitem (df : Frame) (c : string) : result (list Q) :=
  match df !! c with
  | Some xs => Ok xs
  | None => Raise (KeyError c)
  end.

(** [c in df.columns] *)
Definition has_column (df : Frame) (c : string) : bool :=
  bool_decide (is_Some (df !! c)).

(** [s.shift(1)] *)
Definition shift1 (s : Series) : Series :=
  match s with
  | [] => []
  | _ :: _ => NaN :: removelast s
  end.

(** Element-wise operation of two series over the same index. *)
Definition elementwise (op : fval → fval → fval) (a b : Series) : Series :=
  zip_with op a b.

(** [s.diff()] *)
Definition diff (s : Series) : Series := elementwise fsub s (shift1 s).

(** [s.pct_change()]: each entry over the one before it, minus one.  (The
    observations have no missing entry, so the forward fill that older
    versions of pandas apply first changes nothing.) *)
Definition pct_change (s : Series) : Series :=
  (λ v, fsub v (Fin 1)) <$> elementwise fdiv s (shift1 s).

(** [s.cumprod()]: a [NaN] entry stays [NaN] in the output and is left out
    of the running product. *)
Fixpoint cumprod_from (acc : fval) (s : Series) : Series :=
  match s with
  | [] => []
  | v :: rest =>
      if is_nan v then NaN :: cumprod_from acc rest
      else let acc' := fmul acc v in acc' :: cumprod_from acc' rest
  end.

Definition cumprod (s : Series) : Series := cumprod_from (Fin 1) s.

(** [s.where(cond, other)] *)
Definition where_ (cond : fval → bool) (other : fval) (s : Series) : Series :=
  (λ v, if cond v then v else other) <$> s.

Definition Qsum (qs : list Q) : Q := foldr Qplus 0 qs.

Definition Qlen (qs : list Q) : Q := inject_Z (Z.of_nat (length qs)).

(** Arithmetic mean of a window; no value over no observation. *)
Definition mean (qs : list Q) : fval :=
  match qs with
  | [] => NaN
  | _ => Fin (Qsum qs / Qlen qs)
  end.

Definition sq_dev (qs : list Q) : Q :=
  let m := Qsum qs / Qlen qs in
  Qsum ((λ x, (x - m) * (x - m)) <$> qs).

(** The trailing window of [w] entries that ends at position [i]. *)
Definition window (w i : nat) (s : Series) : Series :=
  take w (drop (S i - w) s).

(** [s.rolling(w).agg()]: [min_periods] is the window size, so a position
    has a value only when the window is full and holds finite entries. *)
Definition rolling_at (agg : list Q → fval) (w : nat) (s : Series) (i : nat) : fval :=
  if (i + 1 <? w)%nat then NaN
  else match mapM finite (window w i s) with
       | Some qs => agg qs
       | None => NaN
       end.

Definition rolling (agg : list Q → fval) (w : nat) (s : Series) : Series :=
  rolling_at agg w s <$> seq 0 (length s).

Section Sqrt.
(** The square root of the platform on finite non-negative values; the
    development makes no assumption on it. *)
Variable sqrt : Q → Q.

Definition fsqrt (v : fval) : fval :=
  match v with
  | Fin q => if Qnegb q then NaN else Fin (sqrt q)
  | PInf => PInf
  | NInf | NaN => NaN
  end.

(** Sample standard deviation ([ddof=1]). *)
Definition sample_std (qs : list Q) : fval :=
  if (length qs <=? 1)%nat then NaN
  else fsqrt (Fin (sq_dev qs / (Qlen qs - 1))).
End Sqrt.

(** *** Exponentially weighted mean

    [s.ewm(span=n).mean()] with the defaults the calls leave in place
    ([adjust=True], [ignore_na=False], [min_periods=0]), in the running
    form in which pandas evaluates it: [weighted] is the current average,
    [old_wt] the total weight it stands for. *)

(** The smoothing factor of a span.  pandas rejects a span below 1; the
    spans of [macd] are positive integers. *)
Definition alpha_of_span (span : positive) : Q := 2 / (inject_Z (Z.pos span) + 1).

Record ewm_state := { weighted : fval; old_wt : Q; nobs : nat }.

Definition is_observation (v : fval) : bool := negb (is_nan v).

Definition count_obs (v : fval) : nat := if is_observation v then 1%nat else 0%nat.

Definition ewm_init (x0 : fval) : ewm_state :=
  {| weighted := x0; old_wt := 1; nobs := count_obs x0 |}.

Definition ewm_step (alpha : Q) (st : ewm_state) (cur : fval) : ewm_state :=
  let n := (nobs st + count_obs cur)%nat in
  if is_observation (weighted st) then
    let ow := old_wt st * (1 - alpha) in
    if is_observation cur then
      {| weighted :=
           if feqb (weighted st) cur then weighted st
           else fdiv (fadd (fmul (Fin ow) (weighted st)) (fmul (Fin 1) cur))
                     (Fin (ow + 1));
         old_wt := ow + 1;
         nobs := n |}
    else {| weighted := weighted st; old_wt := ow; nobs := n |}
  else if is_observation cur then
    {| weighted := cur; old_wt := old_wt st; nobs := n |}
  else {| weighted := weighted st; old_wt := old_wt st; nobs := n |}.

Definition ewm_emit (min_periods : nat) (st : ewm_state) : fval :=
  if (Nat.max min_periods 1 <=? nobs st)%nat then weighted st else NaN.

Fixpoint ewm_run (alpha : Q) (min_periods : nat) (st : ewm_state) (s : Series) : Series :=
  match s with
  | [] => []
  | cur :: rest =>
      let st' := ewm_step alpha st cur in
      ewm_emit min_periods st' :: ewm_run alpha min_periods st' rest
  end.

Definition ewm_mean (span : positive) (min_periods : nat) (s : Series) : Series :=
  match s with
  | [] => []
  | x0 :: rest =>
      ewm_emit min_periods (ewm_init x0)
        :: ewm_run (alpha_of_span span) min_periods (ewm_init x0) rest
  end.

(** *** The weighted average in closed form

    The formula the specification and the pandas documentation give for
    the same quantity: at position [t] the observations [x_t, x_(t-1), ...,
    x_0] weigh [1, (1 - alpha), ..., (1 - alpha)^t], and the average is
    their weighted sum over the sum of the weights. *)

Definition ewma_weights (alpha : Q) (n : nat) : list Q :=
  (λ i, (1 - alpha) ^ Z.of_nat i) <$> seq 0 n.

Definition weighted_sum (alpha : Q) (past : list Q) : Q :=
  Qsum (zip_with Qmult (ewma_weights alpha (length past)) past).

Definition ewma_at (alpha : Q) (xs : list Q) (t : nat) : Q :=
  weighted_sum alpha (reverse (take (S t) xs)) / Qsum (ewma_weights alpha (S t)).

Definition ewma (alpha : Q) (xs : list Q) : list Q :=
  ewma_at alpha xs <$> seq 0 (length xs).

End Pandas.
Export Pandas.

(* ================================================================= *)
(** ** [analysis.py]: [FinancialAnalyzer] *)

Module Analysis.

Record Returns := { daily : Series; cumulative : Series }.

Record Bands := { upper : Series; middle : Series; lower : Series }.

Definition calculate_returns (data : Frame) : result Returns :=
  if negb (has_column data "adjClose")
  then Raise (ValueError "Data must contain 'adjClose' column")
  else
    adj ← getitem data "adjClose";
    let daily := pct_change (of_obs adj) in
    Ok {| daily := daily; cumulative := cumprod (fadd (Fin 1) <$> daily) |}.

(** A frame under construction: its columns in order, each under its
    name.  [ma[name] = s] overwrites the column of that name where it
    stands, and puts a new column last. *)
Fixpoint setitem (ma : list (string * Series)) (name : string) (s : Series)
  : list (string * Series) :=
  match ma with
  | [] => [(name, s)]
  | (n, s') :: rest =>
      if String.eqb n name then (n, s) :: rest else (n, s') :: setitem rest name s
  end.

(** [f'ma_{window}'] *)
Definition ma_name (window : nat) : string := "ma_" +:+ pretty window.

(** The loop of [moving_averages], from the columns set so far. *)
Fixpoint moving_averages_from (ma : list (string * Series)) (data : Frame)
         (windows : list nat) : result (list (string * Series)) :=
  match windows with
  | [] => Ok ma
  | window :: rest =>
      adj ← getitem data "adjClose";
      moving_averages_from (setitem ma (ma_name window) (rolling mean window (of_obs adj)))
        data rest
  end.

Definition moving_averages (data : Frame) (windows : list nat)
  : result (list (string * Series)) :=
  moving_averages_from [] data windows.

Definition rsi_of_rs (rs : fval) : fval :=
  fsub (Fin 100) (fdiv (Fin 100) (fadd (Fin 1) rs)).

Definition gain_of (delta : Series) : Series :=
  where_ (λ d, fgtb d (Fin 0)) (Fin 0) delta.

Definition loss_of (delta : Series) : Series :=
  fopp <$> where_ (λ d, fltb d (Fin 0)) (Fin 0) delta.

Definition rsi (data : Frame) (window : nat) : result Series :=
  adj ← getitem data "adjClose";
  let delta := diff (of_obs adj) in
  let gain := gain_of delta in
  let loss := loss_of delta in
  let avg_gain := rolling mean window gain in
  let avg_loss := rolling mean window loss in
  let rs := elementwise fdiv avg_gain avg_loss in
  Ok (rsi_of_rs <$> rs).

Definition macd (data : Frame) (fast slow signal : positive)
  : result (Series * Series) :=
  adj ← getitem data "adjClose";
  let ema_fast := ewm_mean fast 0 (of_obs adj) in
  adj' ← getitem data "adjClose";
  let ema_slow := ewm_mean slow 0 (of_obs adj') in
  let macd_line := elementwise fsub ema_fast ema_slow in
  let signal_line := ewm_mean signal 0 macd_line in
  Ok (macd_line, signal_line).

Definition bollinger_bands (sqrt : Q → Q) (data : Frame) (window : nat) (num_std : Q)
  : result Bands :=
  adj ← getitem data "adjClose";
  let rolling_mean := rolling mean window (of_obs adj) in
  adj' ← getitem data "adjClose";
  let rolling_std := rolling (sample_std sqrt) window (of_obs adj') in
  let width := (λ s, fmul s (Fin num_std)) <$> rolling_std in
  Ok {| upper := elementwise fadd rolling_mean width;
        middle := rolling_mean;
        lower := elementwise fsub rolling_mean width |}.

Definition required_columns : gset string := {[ "high"; "low"; "adjClose" ]}.

Definition true_range (high low close : Series) : Series :=
  let tr1 := elementwise fsub high low in
  let tr2 := fabs <$> elementwise fsub high (shift1 close) in
  let tr3 := fabs <$> elementwise fsub low (shift1 close) in
  zip_with fmax_skipna (zip_with fmax_skipna tr1 tr2) tr3.

Definition atr (data : Frame) (window : nat) : result Series :=
  if negb (bool_decide (required_columns ⊆ dom data))
  then Raise (ValueError "Data must contain high, low, and adjClose columns")
  else
    high ← getitem data "high";
    low ← getitem data "low";
    close ← getitem data "adjClose";
    Ok (rolling mean window (true_range (of_obs high) (of_obs low) (of_obs close))).

End Analysis.
Export Analysis.

(* ================================================================= *)
(** ** The returns and the bands on binary64 values *)

(** [calculate_returns] and [bollinger_bands] once more, with the
    arithmetic of the machine: every operation is the IEEE operation on
    doubles, rounded to nearest, and an undefined entry is the [nan] of
    the format.  The aggregates of a window are evaluated by the formulas
    that define them, summing from the oldest entry on (pandas updates
    them from one window to the next instead); what is stated on doubles
    below is the arithmetic of the returns and of the bands. *)
Module Doubles.
Import PrimFloat.
Local Open Scope float_scope.

Abbreviation Series := (list float).

Abbreviation Frame := (gmap string (list float)).

Definition getitem (df : Frame) (c : string) : result (list float) :=
  match df !! c with
  | Some xs => Ok xs
  | None => Raise (KeyError c)
  end.

Definition has_column (df : Frame) (c : string) : bool :=
  bool_decide (is_Some (df !! c)).

Definition of_nat (n : nat) : float := of_uint63 (Uint63.of_Z (Z.of_nat n)).

Definition shift1 (s : Series) : Series :=
  match s with
  | [] => []
  | _ :: _ => nan :: removelast s
  end.

Definition pct_change (s : Series) : Series :=
  (λ v, v - 1) <$> zip_with div s (shift1 s).

Fixpoint cumprod_from (acc : float) (s : Series) : Series :=
  match s with
  | [] => []
  | v :: rest =>
      if is_nan v then nan :: cumprod_from acc rest
      else let acc' := acc * v in acc' :: cumprod_from acc' rest
  end.

Definition cumprod (s : Series) : Series := cumprod_from 1 s.

Definition sum (xs : list float) : float := foldl add 0 xs.

Definition mean (xs : list float) : float := sum xs / of_nat (length xs).

Definition sample_std (xs : list float) : float :=
  let m := mean xs in
  sqrt (sum ((λ x, (x - m) * (x - m)) <$> xs) / (of_nat (length xs) - 1)).

Definition rolling_at (agg : list float → float) (w : nat) (s : Series) (i : nat)
  : float :=
  if (i + 1 <? w)%nat then nan
  else let win := take w (drop (S i - w) s) in
       if existsb is_nan win then nan else agg win.

Definition rolling (agg : list float → float) (w : nat) (s : Series) : Series :=
  rolling_at agg w s <$> seq 0 (length s).

Record Returns := { daily : Series; cumulative : Series }.

Record Bands := { upper : Series; middle : Series; lower : Series }.

Definition calculate_returns (data : Frame) : result Returns :=
  if negb (has_column data "adjClose")
  then Raise (ValueError "Data must contain 'adjClose' column")
  else
    adj ← getitem data "adjClose";
    let daily := pct_change adj in
    Ok {| daily := daily; cumulative := cumprod (add 1 <$> daily) |}.

Definition bollinger_bands (data : Frame) (window : nat) (num_std : float)
  : result Bands :=
  adj ← getitem data "adjClose";
  let rolling_mean := rolling mean window adj in
  adj' ← getitem data "adjClose";
  let rolling_std := rolling sample_std window adj' in
  let width := (λ s, s * num_std) <$> rolling_std in
  Ok {| upper := zip_with add rolling_mean width;
        middle := rolling_mean;
        lower := zip_with sub rolling_mean width |}.

(** The prices of the worked example of the specification. *)
Definition df_three : Frame := {[ "adjClose" := [100; 110; 121] ]}.

End Doubles.

(* ================================================================= *)
(** ** The world the cache path runs in *)

Module Runtime.

(** A stored or fetched price bar: the [date] column and the numeric
    fields of the persistence schema.  In a frame the date is the day of
    the bar; in a table of the store it is the text the engine keeps for
    it (see [Database.sql_datetime]). *)
Record Row := {
  date : string;
  open : Q; high : Q; low : Q; close : Q; adjClose : Q; volume : Q
}.

(** A call [client.get_ticker_price(ticker, startDate, endDate, frequency)]. *)
Record Request := {
  req_ticker : string;
  req_start : string;
  req_end : string;
  req_freq : string
}.

(** What the remote service answers: the bars, or a failure carrying the
    text of the exception. *)
Inductive Response : Type :=
| Prices (bars : list Row)
| Failure (msg : string).

(** The parts of the environment the code reads but does not own. *)
Record Env := {
  client : Request → Response;          (* the Tiingo service *)
  to_datetime : string → option string; (* [pd.to_datetime], [None]: unparsable *)
  today : string;                       (* [datetime.now().strftime('%Y-%m-%d')] *)
  days_ago : Z → string;                (* [datetime.now() - timedelta(days=n)] *)
  engine_fault : string → option string; (* a failure of the engine on a table *)
  unquoted_name_error : string → option string
    (* how the engine reads a table name written without quotes in the text
       of a statement: [None] when the text names that table, else the
       message of the error it raises (a reserved word such as [ALL] or
       [ON], a name such as [BRK-B] or [BF.B] that is no identifier) *)
}.

Record World := {
  tables : gmap string (list Row);  (* the SQL database: rows in storage order *)
  stdout : list string;             (* lines printed so far *)
  requests : list Request           (* calls made to the remote service *)
}.

(** A computation may change the world and ends in a value or an
    exception; the changes made before an exception stay. *)
Definition M (A : Type) : Type := World → result A * World.

#[export] Instance M_ret : MRet M := λ A a w, (Ok a, w).
#[export] Instance M_bind : MBind M := λ A B k m w,
  match m w with
  | (Ok a, w') => k a w'
  | (Raise e, w') => (Raise e, w')
  end.

Definition raise {A} (e : exn) : M A := λ w, (Raise e, w).

(** [try: body except Exception as e: handler(e)] *)
Definition try_except {A} (body : M A) (handler : exn → M A) : M A := λ w,
  match body w with
  | (Ok a, w') => (Ok a, w')
  | (Raise e, w') => handler e w'
  end.

(** The world after one more line on the terminal, and after one more
    call to the remote service. *)
Definition printed (line : string) (w : World) : World :=
  {| tables := tables w; stdout := stdout w ++ [line]; requests := requests w |}.

Definition called (rq : Request) (w : World) : World :=
  {| tables := tables w; stdout := stdout w; requests := requests w ++ [rq] |}.

Definition print (line : string) : M unit := λ w, (Ok (), printed line w).

(** [needle in haystack] on strings *)
Definition contains (needle haystack : string) : bool :=
  bool_decide (is_Some (String.index 0 needle haystack)).

(** Truth value of an optional string argument: [None] and [''] are false. *)
Definition truthy (s : option string) : bool :=
  match s with
  | Some s => negb (String.eqb s "")
  | None => false
  end.

(** [df.empty] *)
Definition empty (df : list Row) : bool :=
  match df with [] => true | _ => false end.

End Runtime.
Export Runtime.

(* ================================================================= *)
(** ** [database.py]: [FinancialDatabase] *)

Module Database.

(** The queries are kept in structured form rather than as SQL text: a
    table name and the conditions of the [WHERE] clause, all of them on the
    [date] column.  The engine compares the stored text with the quoted
    literal in text order.  The table name is spliced into the text as it
    is, without quotes, so whether the statement reaches the table at all
    is up to the engine's reading of the name ([unquoted_name_error]). *)
Inductive condition : Type :=
| DateGe (literal : string)   (* date >= 'literal' *)
| DateLe (literal : string)   (* date <= 'literal' *)
| DateLt (literal : string).  (* date <  'literal' *)

Definition holds (r : Row) (c : condition) : bool :=
  match c with
  | DateGe s => String.leb s (date r)
  | DateLe s => String.leb (date r) s
  | DateLt s => String.ltb (date r) s
  end.

Definition satisfies (conditions : list condition) (r : Row) : bool :=
  forallb (holds r) conditions.

(** Names bound at module level in [database.py]: its imports and its
    class. *)
Definition module_globals : list string :=
  ["os"; "pd"; "create_engine"; "inspect"; "DateTime"; "Float"; "FinancialDatabase"].

(** Reading a global name of the module. *)
Definition load_global (name : string) : M unit :=
  if bool_decide (name ∈ module_globals) then mret () else raise (NameError name).

Inductive if_exists_mode : Type := fail | replace | append.

(** The [date] column is written with the type [DateTime]: the engine
    keeps a timestamp as the text [YYYY-MM-DD HH:MM:SS.ffffff], for the
    midnight of a day the day followed by [midnight]. *)
Definition midnight : string := " 00:00:00.000000".

Definition sql_datetime (day : string) : string := day +:+ midnight.

(** [parse_dates=['date']]: the stored text read back as a timestamp, the
    midnight of a day as that day. *)
Definition of_sql_datetime (text : string) : string :=
  let n := (String.length text - String.length midnight)%nat in
  if String.eqb (String.substring n (String.length midnight) text) midnight
  then String.substring 0 n text
  else text.

Definition with_date (f : string → string) (r : Row) : Row :=
  {| date := f (date r); open := open r; high := high r; low := low r;
     close := close r; adjClose := adjClose r; volume := volume r |}.

(** A row of a frame as the table keeps it, and back. *)
Definition to_sql_row (r : Row) : Row := with_date sql_datetime r.

Definition of_sql_row (r : Row) : Row := with_date of_sql_datetime r.

Section WithEnv.
Context (env : Env).

(** [pd.read_sql("SELECT * FROM t WHERE ...", parse_dates=['date'])]: the
    statement fails when the engine does not read the unquoted [t] as the
    table, or when there is no such table; there is no [ORDER BY], the
    rows come in storage order, selected on their stored text. *)
Definition read_sql (table_name : string) (conditions : list condition)
  : M (list Row) := λ w,
  match unquoted_name_error env table_name with
  | Some msg => (Raise (OperationalError msg), w)
  | None =>
      match tables w !! table_name with
      | None => (Raise (OperationalError ("no such table: " +:+ table_name)), w)
      | Some rows =>
          (Ok (of_sql_row <$> filter (λ r, satisfies conditions r = true) rows), w)
      end
  end.

(** [conn.execute("DELETE FROM t WHERE ...")] *)
Definition execute_delete (table_name : string) (c : condition) : M unit := λ w,
  match unquoted_name_error env table_name with
  | Some msg => (Raise (OperationalError msg), w)
  | None =>
      match engine_fault env table_name with
      | Some msg => (Raise (OperationalError msg), w)
      | None =>
          match tables w !! table_name with
          | None => (Raise (OperationalError ("no such table: " +:+ table_name)), w)
          | Some rows =>
              (Ok (), {| tables := <[table_name := filter (λ r, holds r c = false) rows]>
                                     (tables w);
                         stdout := stdout w; requests := requests w |})
          end
      end
  end.

(** [df.to_sql(table_name, if_exists=...)].  Resetting the index turns
    the dates back into the [date] column that the rows carry here; the
    [dtype] table makes it a [DateTime] column, so what is stored for a
    date is [sql_datetime] of it.  [to_sql] quotes the table name: every
    name can be written. *)
Definition save_data (df : list Row) (table_name : string) (if_exists : if_exists_mode)
  : M unit := λ w,
  match tables w !! table_name, if_exists with
  | Some _, fail =>
      (Raise (ValueError ("Table '" +:+ table_name +:+ "' already exists.")), w)
  | Some rows, append =>
      (Ok (), {| tables := <[table_name := rows ++ (to_sql_row <$> df)]> (tables w);
                 stdout := stdout w; requests := requests w |})
  | _, _ =>
      (Ok (), {| tables := <[table_name := to_sql_row <$> df]> (tables w);
                 stdout := stdout w; requests := requests w |})
  end.

(** The [conditions] list built from the optional bounds. *)
Definition date_conditions (start_date end_date : option string) : list condition :=
  (if truthy start_date then [DateGe (default "" start_date)] else [])
  ++ (if truthy end_date then [DateLe (default "" end_date)] else []).

Definition load_data (table_name : string) (start_date end_date : option string)
  : M (list Row) :=
  let conditions := date_conditions start_date end_date in
  read_sql table_name conditions.

(** [inspect(engine).has_table(table_name)] looks the name up as a name,
    not as SQL text. *)
Definition table_exists (table_name : string) : M bool := λ w,
  (Ok (bool_decide (is_Some (tables w !! table_name))), w).

Definition clean_old_data (table_name : string) (keep_days : Z) : M unit :=
  if (keep_days <=? 0)%Z then mret ()
  else
    load_global "datetime";;
    load_global "timedelta";;
    let cutoff_date := days_ago env keep_days in
    try_except
      (execute_delete table_name (DateLt cutoff_date);;
       print ("Cleaned data older than " +:+ pretty keep_days
              +:+ " days from " +:+ table_name))
      (λ e, print ("Error cleaning old data: " +:+ str e)).

End WithEnv.
End Database.

(* ================================================================= *)
(** ** [datafetch.py]: [TiingoDataFetcher] *)

Module DataFetch.

Definition date_le (r1 r2 : Row) : Prop := String.leb (date r1) (date r2) = true.

#[export] Instance date_le_dec : RelDecision date_le.
Proof. intros r1 r2. unfold date_le. apply _. Defined.

Section WithEnv.
Context (env : Env).

(** [self.client.get_ticker_price(...)]: the call is made, and raises
    when the service fails. *)
Definition get_ticker_price (rq : Request) : M (list Row) := λ w,
  match client env rq with
  | Prices bars => (Ok bars, called rq w)
  | Failure msg => (Raise (RemoteError msg), called rq w)
  end.

(** The request [fetch_data] sends: a missing end date is today's. *)
Definition request_of (ticker start_date : string) (end_date : option string)
           (freq : string) : Request :=
  {| req_ticker := ticker; req_start := start_date;
     req_end := default (today env) end_date; req_freq := freq |}.

(** [df['date'] = pd.to_datetime(df['date'])] and the removal of the
    time zone: every date is parsed, or the call raises. *)
Definition parse_dates (df : list Row) : M (list Row) :=
  match mapM (λ r, d ← to_datetime env (date r);
                   Some {| date := d; open := open r; high := high r; low := low r;
                           close := close r; adjClose := adjClose r;
                           volume := volume r |}) df with
  | Some df' => mret df'
  | None => raise (ValueError "Unknown datetime string format")
  end.

(** [df.sort_index()] *)
Definition sort_index (df : list Row) : list Row := merge_sort date_le df.

Definition fetch_data (ticker start_date : string) (end_date : option string)
           (freq : string) : M (list Row) :=
  let end_date := match end_date with None => today env | Some e => e end in
  try_except
    (df ← get_ticker_price {| req_ticker := ticker; req_start := start_date;
                               req_end := end_date; req_freq := freq |};
     if negb (empty df)
     then df ← parse_dates df; mret (sort_index df)
     else mret df)
    (λ e,
      (if contains "API limit reached" (str e)
       then print "Tiingo API limit reached - try again later or upgrade your plan"
       else if contains "Invalid token" (str e)
       then print "Invalid API token - check your .env file"
       else print ("Error fetching data for " +:+ ticker +:+ ": " +:+ str e));;
      mret []).

End WithEnv.
End DataFetch.

(* ================================================================= *)
(** ** [main.py]: the cache coordinator of [FinancialAnalysisTool] *)

Module Main.

Record Params := {
  tickers : list string;
  start_date : string;
  end_date : option string;
  freq : string;
  no_plots : bool;
  cache_days : Z
}.

Section WithEnv.
Context (env : Env).

Definition _get_data_with_cache (ticker : string) (params : Params) : M (list Row) :=
  ex ← Database.table_exists ticker;
  cached ←
    (if ex && (0 <? cache_days params)%Z
     then
       df ← Database.load_data env ticker (Some (start_date params)) (end_date params);
       if negb (empty df)
       then print ("Loaded cached data for " +:+ ticker);; mret (Some df)
       else mret None
     else mret None);
  match cached with
  | Some df => mret df
  | None =>
      print ("Fetching new data for " +:+ ticker +:+ "...");;
      df ← DataFetch.fetch_data env ticker (start_date params) (end_date params)
             (freq params);
      (if negb (empty df)
       then
         Database.save_data df ticker Database.append;;
         if (0 <? cache_days params)%Z
         then Database.clean_old_data env ticker (cache_days params)
         else mret ()
       else mret ());;
      mret df
  end.

End WithEnv.
End Main.

(* ================================================================= *)
(** ** [main.py]: from the rows to the analyzer, and the loop of [run] *)

Module Pipeline.

(** [FinancialAnalyzer(df)] keeps the frame it is given; its methods read
    it by column.  The frame of a list of rows has the numeric fields of
    the rows as columns, the dates being the index. *)
Definition frame_of_rows (df : list Row) : Frame :=
  {[ "open" := open <$> df; "high" := high <$> df; "low" := low <$> df;
     "close" := close <$> df; "adjClose" := adjClose <$> df;
     "volume" := volume <$> df ]}.

(** The first line of a ticker's section: a line feed and thirty [=]. *)
Definition rule : string :=
  String (Ascii.ascii_of_nat 10) "==============================".

Section WithEnv.
Context (env : Env).

(** What [run] does with the data of one ticker, inside the [try] of the
    loop: the two plots unless disabled and the printed report.  They
    belong to the rendering side and are left open here; they may print,
    write and raise. *)
Context (report : string → list Row → M unit).

(** The body of the loop of [run], with its [try] and [except]. *)
Definition process_ticker (ticker : string) (params : Main.Params) : M unit :=
  try_except
    (print rule;;
     print ("Processing " +:+ ticker +:+ "...");;
     df ← Main._get_data_with_cache env ticker params;
     if empty df
     then print ("No data available for " +:+ ticker)
     else report ticker df)
    (λ e, print ("Error processing " +:+ ticker +:+ ": " +:+ str e)).

(** [for ticker in params['tickers']: ...] *)
Fixpoint run_tickers (tickers : list string) (params : Main.Params) : M unit :=
  match tickers with
  | [] => mret ()
  | ticker :: rest => process_ticker ticker params;; run_tickers rest params
  end.

End WithEnv.
End Pipeline.

(* ================================================================= *)
(** ** Concrete inputs used by the examples below *)

Module Examples.

Definition bar (d : string) (px : Q) : Row :=
  {| date := d; open := px; high := px; low := px; close := px;
     adjClose := px; volume := 1000 |}.

(** The same bar as a table keeps it. *)
Definition stored (d : string) (px : Q) : Row := Database.to_sql_row (bar d px).

(** An engine that reads an unquoted name the way SQLite does, as far as
    the examples go: a name of letters, digits and underscores that does
    not start with a digit names its table, unless it is one of the
    reserved words (of which a few are listed). *)
Definition name_char (a : Ascii.ascii) : bool :=
  let n := Ascii.nat_of_ascii a in
  ((48 <=? n) && (n <=? 57) || (65 <=? n) && (n <=? 90)
   || (97 <=? n) && (n <=? 122) || (n =? 95))%nat.

Definition starts_with_digit (t : string) : bool :=
  match t with
  | String a _ => let n := Ascii.nat_of_ascii a in ((48 <=? n) && (n <=? 57))%nat
  | EmptyString => false
  end.

Definition reserved_words : list string :=
  ["ALL"; "AND"; "AS"; "FROM"; "IN"; "IS"; "NOT"; "NULL"; "ON"; "OR"; "SET";
   "TO"].

Definition quoted (t : string) : string :=
  String (Ascii.ascii_of_nat 34) t +:+ String (Ascii.ascii_of_nat 34) "".

Definition sqlite_unquoted (t : string) : option string :=
  if bool_decide (t ∈ reserved_words)
  then Some ("near " +:+ quoted t +:+ ": syntax error")
  else if forallb name_char (String.list_ascii_of_string t) && negb (starts_with_digit t)
          && negb (String.eqb t "")
  then None
  else Some ("unrecognized token in: SELECT * FROM " +:+ t).

(** A service that is out of quota. *)
Definition env_rate_limited : Env :=
  {| client := λ _, Failure "API limit reached";
     to_datetime := Some;
     today := "2024-06-03";
     days_ago := λ _, "2024-05-04 09:30:00.000000";
     engine_fault := λ _, None;
     unquoted_name_error := sqlite_unquoted |}.

(** A service that has nothing for the requested range. *)
Definition env_no_prices : Env :=
  {| client := λ _, Prices [];
     to_datetime := Some;
     today := "2024-06-03";
     days_ago := λ _, "2024-05-04 09:30:00.000000";
     engine_fault := λ _, None;
     unquoted_name_error := sqlite_unquoted |}.

Definition world_of (tbls : gmap string (list Row)) : World :=
  {| tables := tbls; stdout := []; requests := [] |}.

(** The store holds one bar of 2020 for AAPL. *)
Definition world_aapl_2020 : World :=
  world_of {[ "AAPL" := [stored "2020-01-02" 75] ]}.

(** Two fetches appended out of calendar order. *)
Definition world_aapl_appended : World :=
  world_of {[ "AAPL" := [stored "2021-01-04" 129; stored "2020-01-02" 75] ]}.

Definition params_2021 : Main.Params :=
  {| Main.tickers := ["AAPL"]; Main.start_date := "2021-01-01"; Main.end_date := Some "2021-12-31";
     Main.freq := "daily"; Main.no_plots := true; Main.cache_days := 30 |}.


(** A service that has one bar for 2021 and one for 2020, and two requests
    made without retention ([cache_days = 0]), the later year first. *)
Definition env_two_years : Env :=
  {| client := λ rq, if String.eqb (req_start rq) "2021-01-01"
                     then Prices [bar "2021-01-04" 129]
                     else Prices [bar "2020-01-02" 75];
     to_datetime := Some;
     today := "2024-06-03";
     days_ago := λ _, "2024-05-04 09:30:00.000000";
     engine_fault := λ _, None;
     unquoted_name_error := sqlite_unquoted |}.

Definition params_year (year : string) : Main.Params :=
  {| Main.tickers := ["AAPL"]; Main.start_date := year +:+ "-01-01";
     Main.end_date := Some (year +:+ "-12-31");
     Main.freq := "daily"; Main.no_plots := true; Main.cache_days := 0 |}.

(** The prices of the worked example of the specification. *)
Definition df_three : Frame := {[ "adjClose" := [100; 110; 121] ]}.

End Examples.

Module MoreExamples.
Import Examples.

(** A service with three bars, delivered latest first. *)
Definition env_three_bars : Env :=
  {| client := λ _, Prices [bar "2024-03-05" 12; bar "2024-03-01" 10;
                            bar "2024-03-04" 11];
     to_datetime := Some;
     today := "2024-06-03";
     days_ago := λ _, "2024-05-04 09:30:00.000000";
     engine_fault := λ _, None;
     unquoted_name_error := sqlite_unquoted |}.

(** A service whose second bar carries a date that does not parse. *)
Definition env_bad_date : Env :=
  {| client := λ _, Prices [bar "2024-03-01" 10; bar "yesterday" 11];
     to_datetime := λ d, if String.eqb d "yesterday" then None else Some d;
     today := "2024-06-03";
     days_ago := λ _, "2024-05-04 09:30:00.000000";
     engine_fault := λ _, None;
     unquoted_name_error := sqlite_unquoted |}.

(** The same request with the range ending on the day of the last bar. *)
Definition params_first_days (days : Z) : Main.Params :=
  {| Main.tickers := ["AAPL"]; Main.start_date := "2024-03-01";
     Main.end_date := Some "2024-03-05";
     Main.freq := "daily"; Main.no_plots := true; Main.cache_days := days |}.

Definition params_march (days : Z) : Main.Params :=
  {| Main.tickers := ["AAPL"; "MSFT"]; Main.start_date := "2024-03-01";
     Main.end_date := Some "2024-03-31";
     Main.freq := "daily"; Main.no_plots := true; Main.cache_days := days |}.

(** A report that prints one line. *)
Definition report_line (ticker : string) (df : list Row) : M unit :=
  print ("report for " +:+ ticker).

(** Bars with a daily range around the close. *)
Definition df_ohlc : Frame :=
  {[ "high" := [11; 12; 13]; "low" := [9; 10; 11]; "adjClose" := [10; 11; 12] ]}.

Definition df_falling : Frame := {[ "adjClose" := [121; 110; 100] ]}.

Definition df_flat : Frame := {[ "adjClose" := [7; 7; 7; 7] ]}.

End MoreExamples.

(* ================================================================= *)
(** * Properties *)

Import Examples MoreExamples.

(** ** Running computations *)

Lemma run_bind {A B} (m : M A) (k : A → M B) (w : World) :
  (m ≫= k) w = match m w with
               | (Ok a, w') => k a w'
               | (Raise e, w') => (Raise e, w')
               end.
Proof. reflexivity. Qed.

Lemma run_ret {A} (a : A) (w : World) : mret (M := M) a w = (Ok a, w).
Proof. reflexivity. Qed.

Lemma print_run line w : print line w = (Ok (), printed line w).
Proof. reflexivity. Qed.

(** ** Text order and the stored form of a date *)

Lemma ascii_compare_refl a : Ascii.compare a a = Eq.
Proof. unfold Ascii.compare. apply N.compare_refl. Qed.


Lemma string_leb_extension s sfx : sfx ≠ "" → String.leb (s +:+ sfx) s = false.
Proof.
  intros Hne. unfold String.leb. induction s as [|a s IH]; simpl.
  - by destruct sfx.
  - by rewrite ascii_compare_refl.
Qed.

Lemma string_length_app s1 s2 :
  String.length (s1 +:+ s2) = (String.length s1 + String.length s2)%nat.
Proof. induction s1 as [|a s1 IH]; simpl; [done | by rewrite IH]. Qed.

Lemma substring_app_skip s1 s2 n :
  String.substring (String.length s1) n (s1 +:+ s2) = String.substring 0 n s2.
Proof. induction s1 as [|a s1 IH]; simpl; done. Qed.

Lemma substring_app_keep s1 s2 :
  String.substring 0 (String.length s1) (s1 +:+ s2) = s1.
Proof.
  induction s1 as [|a s1 IH]; simpl; [by destruct s2 | by rewrite IH].
Qed.

(** What is written for a day reads back as that day. *)
Lemma of_sql_datetime_sql_datetime day :
  Database.of_sql_datetime (Database.sql_datetime day) = day.
Proof.
  unfold Database.of_sql_datetime, Database.sql_datetime.
  rewrite string_length_app, Nat.add_sub, substring_app_skip.
  change (String.substring 0 (String.length Database.midnight) Database.midnight)
    with Database.midnight.
  rewrite String.eqb_refl. apply substring_app_keep.
Qed.

Lemma of_sql_row_to_sql_row r : Database.of_sql_row (Database.to_sql_row r) = r.
Proof.
  destruct r. unfold Database.of_sql_row, Database.to_sql_row, Database.with_date.
  simpl. by rewrite of_sql_datetime_sql_datetime.
Qed.

Lemma of_sql_rows_to_sql_rows (df : list Row) :
  Database.of_sql_row <$> (Database.to_sql_row <$> df) = df.
Proof.
  rewrite <- list_fmap_compose. rewrite <- (list_fmap_id df) at 2.
  apply list_fmap_ext. intros i r _. apply of_sql_row_to_sql_row.
Qed.


Lemma sql_datetime_not_below day :
  String.leb (Database.sql_datetime day) day = false.
Proof. by apply string_leb_extension. Qed.

(** ** The store *)

Section Store.
Import Database.
Context (env : Env).

Lemma table_exists_run t w :
  table_exists t w = (Ok (bool_decide (is_Some (tables w !! t))), w).
Proof. reflexivity. Qed.

Lemma load_data_known t s e w rows :
  unquoted_name_error env t = None →
  tables w !! t = Some rows →
  load_data env t s e w
  = (Ok (of_sql_row <$> filter (λ r, satisfies (date_conditions s e) r = true) rows), w).
Proof. intros Hn H. unfold load_data, read_sql. by rewrite Hn, H. Qed.


Lemma load_data_unreadable t s e w msg :
  unquoted_name_error env t = Some msg →
  load_data env t s e w = (Raise (OperationalError msg), w).
Proof. intros Hn. unfold load_data, read_sql. by rewrite Hn. Qed.

Lemma satisfies_bounds s e r :
  satisfies (date_conditions s e) r = true ↔
  (∀ lo, s = Some lo → lo ≠ "" → String.leb lo (date r) = true) ∧
  (∀ hi, e = Some hi → hi ≠ "" → String.leb (date r) hi = true).
Proof.
  unfold satisfies, date_conditions.
  rewrite forallb_app, andb_true_iff.
  assert (Hne : ∀ x : string, negb (String.eqb x "") = true ↔ x ≠ "").
  { intros x. rewrite negb_true_iff. destruct (String.eqb_spec x ""); split; congruence. }
  assert (Hlo : forallb (holds r)
                  (if truthy s then [DateGe (default "" s)] else []) = true
                ↔ ∀ lo, s = Some lo → lo ≠ "" → String.leb lo (date r) = true).
  { destruct s as [lo|]; simpl; [|split; [intros _ ? [=] | done]].
    destruct (negb (String.eqb lo "")) eqn:E; simpl.
    - rewrite andb_true_r. apply Hne in E. split; [intros H ? [= <-] _; done | eauto].
    - split; [|done]. intros _ ? [= <-] Hlo. apply Hne in Hlo. congruence. }
  assert (Hhi : forallb (holds r)
                  (if truthy e then [DateLe (default "" e)] else []) = true
                ↔ ∀ hi, e = Some hi → hi ≠ "" → String.leb (date r) hi = true).
  { destruct e as [hi|]; simpl; [|split; [intros _ ? [=] | done]].
    destruct (negb (String.eqb hi "")) eqn:E; simpl.
    - rewrite andb_true_r. apply Hne in E. split; [intros H ? [= <-] _; done | eauto].
    - split; [|done]. intros _ ? [= <-] Hhi'. apply Hne in Hhi'. congruence. }
  tauto.
Qed.

(** A row stored for the midnight of the day that is the upper bound does
    not pass the bound. *)
Lemma end_day_not_selected s day r :
  day ≠ "" → date r = sql_datetime day →
  satisfies (date_conditions s (Some day)) r = false.
Proof.
  intros Hne Hr. apply not_true_is_false. rewrite satisfies_bounds.
  intros [_ Hhi]. specialize (Hhi day eq_refl Hne).
  by rewrite Hr, sql_datetime_not_below in Hhi.
Qed.

End Store.



(** The store of the next example is one the program builds itself: two
    runs without retention, for 2021 and then for 2020, each append what
    they fetched. *)
Lemma appended_store_reachable :
  let run1 := Main._get_data_with_cache env_two_years "AAPL" (params_year "2021")
                (world_of ∅) in
  let run2 := Main._get_data_with_cache env_two_years "AAPL" (params_year "2020")
                run1.2 in
  run1.1 = Ok [bar "2021-01-04" 129]
  ∧ run2.1 = Ok [bar "2020-01-02" 75]
  ∧ tables run2.2 = tables world_aapl_appended.
Proof. repeat split; reflexivity. Qed.



(** ** Pruning *)

(** [clean_old_data] reads the names [datetime] and [timedelta], which
    [database.py] never imports: with a positive [keep_days] the call
    stops there, before the [try] block is entered. *)
Lemma clean_old_data_positive env t keep_days w :
  (0 < keep_days)%Z →
  Database.clean_old_data env t keep_days w = (Raise (NameError "datetime"), w).
Proof.
  intros H. unfold Database.clean_old_data.
  destruct (Z.leb_spec keep_days 0); [lia|]. reflexivity.
Qed.

Lemma clean_old_data_disabled env t keep_days w :
  (keep_days ≤ 0)%Z →
  Database.clean_old_data env t keep_days w = (Ok (), w).
Proof.
  intros H. unfold Database.clean_old_data.
  destruct (Z.leb_spec keep_days 0); [reflexivity | lia].
Qed.

(** C3.  The code at the failing input: pruning AAPL with a retention of
    30 days raises [NameError] to the caller; nothing is deleted and
    nothing is logged. *)
Theorem clean_old_data_raises_name_error :
  Database.clean_old_data env_no_prices "AAPL" 30 world_aapl_appended
  = (Raise (NameError "datetime"), world_aapl_appended).
Proof. by apply clean_old_data_positive. Qed.

(** The coordinator does not catch it either: a first fetch with a
    retention of 30 days stores the rows and then ends in the [NameError]. *)
Lemma coordinator_sees_name_error :
  let run := Main._get_data_with_cache env_two_years "AAPL" params_2021 (world_of ∅) in
  run.1 = Raise (NameError "datetime")
  ∧ tables run.2 !! "AAPL" = Some [stored "2021-01-04" 129].
Proof. split; reflexivity. Qed.

(** ** The fetch boundary *)

Section Fetch.
Import DataFetch.
Context (env : Env).

Lemma parse_dates_outcome df w :
  (∃ df', parse_dates env df w = (Ok df', w))
  ∨ (∃ e, parse_dates env df w = (Raise e, w)).
Proof.
  unfold parse_dates. destruct (mapM _ df); [left | right]; eauto.
Qed.

Lemma handler_outcome ticker e w :
  ∃ line,
    ((if contains "API limit reached" (str e)
      then print "Tiingo API limit reached - try again later or upgrade your plan"
      else if contains "Invalid token" (str e)
      then print "Invalid API token - check your .env file"
      else print ("Error fetching data for " +:+ ticker +:+ ": " +:+ str e));;
     mret []) w = (Ok ([] : list Row), printed line w).
Proof.
  destruct (contains "API limit reached" (str e));
    [|destruct (contains "Invalid token" (str e))]; eexists; reflexivity.
Qed.

Lemma fetch_data_outcome ticker start_date end_date freq w :
  let rq := request_of env ticker start_date end_date freq in
  match client env rq with
  | Failure msg =>
      ∃ line, fetch_data env ticker start_date end_date freq w
              = (Ok [], printed line (called rq w))
  | Prices bars =>
      ∃ df w', fetch_data env ticker start_date end_date freq w = (Ok df, w')
               ∧ tables w' = tables w ∧ requests w' = requests w ++ [rq]
  end.
Proof.
  intros rq. unfold fetch_data, try_except.
  replace (match end_date with Some e => e | None => today env end)
    with (default (today env) end_date) by by destruct end_date.
  fold (request_of env ticker start_date end_date freq). fold rq.
  rewrite run_bind. unfold get_ticker_price.
  destruct (client env rq) as [bars|msg].
  - destruct bars as [|b bars]; simpl.
    { eexists _, _. eauto. }
    rewrite run_bind.
    destruct (parse_dates_outcome (b :: bars) (called rq w)) as [[df' ->]|[e ->]].
    + eexists _, _. rewrite run_ret. eauto.
    + destruct (handler_outcome ticker e (called rq w)) as [line ->].
      eexists _, _. eauto.
  - apply handler_outcome.
Qed.

End Fetch.

(** C2.  [fetch_data] returns normally on every input and in every
    environment, whatever the service does: a failure of the remote call
    is caught, one diagnostic line is printed and the empty frame is
    returned. *)
Theorem fetch_data_absorbs_failures
    (env : Env) (ticker start_date : string) (end_date : option string)
    (freq : string) (w : World) :
  let rq := DataFetch.request_of env ticker start_date end_date freq in
  (∃ df w', DataFetch.fetch_data env ticker start_date end_date freq w = (Ok df, w')
            ∧ tables w' = tables w)
  ∧ (∀ msg, client env rq = Failure msg →
       ∃ line, DataFetch.fetch_data env ticker start_date end_date freq w
               = (Ok [], printed line (called rq w))).
Proof.
  intros rq.
  pose proof (fetch_data_outcome env ticker start_date end_date freq w) as H.
  fold rq in H. simpl in H.
  destruct (client env rq) as [bars|msg'].
  - destruct H as (df & w' & -> & Ht & _). split; [eauto|]. intros ? [=].
  - destruct H as [line ->]. split; [by eexists _, _|]. intros ? _. eauto.
Qed.

Lemma fetch_data_absorbs_failures_witness :
  let rq := DataFetch.request_of env_rate_limited "AAPL" "2024-01-01" None "daily" in
  (∃ df w', DataFetch.fetch_data env_rate_limited "AAPL" "2024-01-01" None "daily"
              world_aapl_2020 = (Ok df, w')
            ∧ tables w' = tables world_aapl_2020)
  ∧ (∀ msg, client env_rate_limited rq = Failure msg →
       ∃ line, DataFetch.fetch_data env_rate_limited "AAPL" "2024-01-01" None "daily"
                 world_aapl_2020
               = (Ok [], printed line (called rq world_aapl_2020))).
Proof.
  exact (fetch_data_absorbs_failures env_rate_limited "AAPL" "2024-01-01" None "daily"
           world_aapl_2020).
Defined.

(** ** The cache coordinator *)

Section Coordinator.
Import Main.
Context (env : Env).

(** The stored rows of a table that the requested bounds select. *)
Lemma resolve_hit ticker params w rows :
  unquoted_name_error env ticker = None →
  tables w !! ticker = Some rows →
  (0 < cache_days params)%Z →
  filter (λ r, Database.satisfies
                 (Database.date_conditions (Some (start_date params)) (end_date params))
                 r = true) rows ≠ [] →
  _get_data_with_cache env ticker params w
  = (Ok (Database.of_sql_row
           <$> filter (λ r, Database.satisfies
                              (Database.date_conditions (Some (start_date params))
                                                        (end_date params)) r = true) rows),
     printed ("Loaded cached data for " +:+ ticker) w).
Proof.
  intros Hn Ht Hdays Hne. unfold _get_data_with_cache.
  rewrite run_bind, table_exists_run, Ht.
  rewrite bool_decide_true by eauto.
  destruct (Z.ltb_spec 0 (cache_days params)); [|lia]. simpl.
  rewrite !run_bind, (load_data_known _ _ _ _ _ _ Hn Ht).
  destruct (filter _ rows) as [|r hit]; [done|]. reflexivity.
Qed.

(** A table that exists under a name the engine does not read as that
    table: with retention the load raises, before any fetch. *)
Lemma resolve_unreadable ticker params w rows msg :
  unquoted_name_error env ticker = Some msg →
  tables w !! ticker = Some rows →
  (0 < cache_days params)%Z →
  _get_data_with_cache env ticker params w = (Raise (OperationalError msg), w).
Proof.
  intros Hn Ht Hdays. unfold _get_data_with_cache.
  rewrite run_bind, table_exists_run, Ht.
  rewrite bool_decide_true by eauto.
  destruct (Z.ltb_spec 0 (cache_days params)); [|lia]. simpl.
  by rewrite !run_bind, (load_data_unreadable _ _ _ _ _ _ Hn).
Qed.

End Coordinator.




(** ** Column lookups of the analyzer *)

Lemma getitem_present (data : Frame) c xs : data !! c = Some xs → getitem data c = Ok xs.
Proof. unfold getitem. by intros ->. Qed.

Lemma getitem_absent (data : Frame) c : data !! c = None → getitem data c = Raise (KeyError c).
Proof. unfold getitem. by intros ->. Qed.

Lemma has_column_true (data : Frame) c xs : data !! c = Some xs → has_column data c = true.
Proof. intros H. unfold has_column. apply bool_decide_eq_true. eauto. Qed.

Lemma has_column_false (data : Frame) c : data !! c = None → has_column data c = false.
Proof.
  intros H. unfold has_column. apply bool_decide_eq_false.
  rewrite H. by intros [? [=]].
Qed.

Lemma required_columns_present (data : Frame) :
  required_columns ⊆ dom data ↔
  is_Some (data !! "high") ∧ is_Some (data !! "low") ∧ is_Some (data !! "adjClose").
Proof.
  unfold required_columns.
  rewrite !union_subseteq, !singleton_subseteq_l, !elem_of_dom. tauto.
Qed.

(** C10.  On a frame without the [adjClose] column, [rsi], [macd] and
    [bollinger_bands] stop at the unchecked lookup [self.data['adjClose']]
    with [KeyError], whereas [calculate_returns] and [atr] test for the
    column first and raise their own [ValueError]. *)
Theorem indicators_without_adjClose
    (sqrt : Q → Q) (data : Frame) (window : nat) (fast slow signal : positive)
    (num_std : Q) :
  data !! "adjClose" = None →
  rsi data window = Raise (KeyError "adjClose")
  ∧ macd data fast slow signal = Raise (KeyError "adjClose")
  ∧ bollinger_bands sqrt data window num_std = Raise (KeyError "adjClose")
  ∧ calculate_returns data
    = Raise (ValueError "Data must contain 'adjClose' column")
  ∧ atr data window
    = Raise (ValueError "Data must contain high, low, and adjClose columns").
Proof.
  intros H. unfold rsi, macd, bollinger_bands, calculate_returns, atr.
  rewrite (getitem_absent _ _ H), (has_column_false _ _ H).
  repeat split; try reflexivity.
  rewrite bool_decide_false; [reflexivity|].
  rewrite required_columns_present, H. intros (_ & _ & [? [=]]).
Qed.

Lemma indicators_without_adjClose_witness :
  let data : Frame := {[ "high" := [2; 3]; "low" := [1; 2] ]} in
  rsi data 14 = Raise (KeyError "adjClose")
  ∧ macd data 12 26 9 = Raise (KeyError "adjClose")
  ∧ bollinger_bands (λ q, q) data 14 2 = Raise (KeyError "adjClose")
  ∧ calculate_returns data
    = Raise (ValueError "Data must contain 'adjClose' column")
  ∧ atr data 14
    = Raise (ValueError "Data must contain high, low, and adjClose columns").
Proof.
  apply (indicators_without_adjClose (λ q, q) {[ "high" := [2; 3]; "low" := [1; 2] ]}
           14 12 26 9 2).
  reflexivity.
Defined.

(** ** Series *)

Lemma length_removelast {A} (l : list A) : length (removelast l) = Nat.pred (length l).
Proof.
  induction l as [|x [|y l] IH]; [done..|].
  change (S (length (removelast (y :: l))) = S (length l)). by rewrite IH.
Qed.

Lemma lookup_removelast {A} (l : list A) i :
  (S i < length l)%nat → removelast l !! i = l !! i.
Proof.
  revert i. induction l as [|x [|y l] IH]; intros i Hi; simpl in Hi; [lia..|].
  destruct i as [|i]; [done|].
  change (removelast (y :: l) !! i = (y :: l) !! i). apply IH. simpl. lia.
Qed.

Lemma length_shift1 s : length (shift1 s) = length s.
Proof.
  destruct s as [|x s]; [done|]. unfold shift1.
  change (S (length (removelast (x :: s))) = S (length s)).
  by rewrite length_removelast.
Qed.

Lemma shift1_lookup_0 s x : s !! 0%nat = Some x → shift1 s !! 0%nat = Some NaN.
Proof. by destruct s. Qed.

Lemma shift1_lookup_S s i x :
  s !! S i = Some x → shift1 s !! S i = s !! i.
Proof.
  intros H. apply lookup_lt_Some in H. destruct s as [|y s]; [simpl in H; lia|].
  unfold shift1. change ((NaN :: removelast (y :: s)) !! S i) with (removelast (y :: s) !! i).
  by apply lookup_removelast.
Qed.

Lemma of_obs_lookup qs i : of_obs qs !! i = Fin <$> qs !! i.
Proof. apply list_lookup_fmap. Qed.

Lemma elementwise_lookup op a b i x y :
  a !! i = Some x → b !! i = Some y → elementwise op a b !! i = Some (op x y).
Proof. intros Ha Hb. unfold elementwise. by rewrite lookup_zip_with, Ha, Hb. Qed.

Lemma length_elementwise op a b :
  length (elementwise op a b) = Nat.min (length a) (length b).
Proof. apply length_zip_with. Qed.

Lemma length_rolling agg w s : length (rolling agg w s) = length s.
Proof. unfold rolling. by rewrite length_fmap, length_seq. Qed.

Lemma rolling_lookup agg w s i :
  (i < length s)%nat → rolling agg w s !! i = Some (rolling_at agg w s i).
Proof.
  intros Hi. unfold rolling. rewrite list_lookup_fmap, lookup_seq_lt by done. done.
Qed.

(** Before the window is full the position has no value. *)
Lemma rolling_warmup agg w s i :
  (i + 1 < w)%nat → (i < length s)%nat → rolling agg w s !! i = Some NaN.
Proof.
  intros Hw Hi. rewrite rolling_lookup by done. unfold rolling_at.
  destruct (Nat.ltb_spec (i + 1) w); [done | lia].
Qed.

Lemma mapM_finite_of_obs qs : mapM finite (of_obs qs) = Some qs.
Proof.
  apply mapM_Some. unfold of_obs. induction qs; constructor; done.
Qed.

Lemma window_of_obs w i qs :
  window w i (of_obs qs) = of_obs (take w (drop (S i - w) qs)).
Proof. unfold window, of_obs. by rewrite fmap_take, fmap_drop. Qed.

Lemma length_full_window {A} w i (l : list A) :
  (w ≤ S i)%nat → (i < length l)%nat → length (take w (drop (S i - w) l)) = w.
Proof. intros. rewrite length_take, length_drop. lia. Qed.

(** On finite observations a full window has a value: the aggregate of
    its [w] entries. *)
Lemma rolling_full agg w qs i :
  (w ≤ S i)%nat → (i < length qs)%nat →
  rolling agg w (of_obs qs) !! i = Some (agg (take w (drop (S i - w) qs))).
Proof.
  intros Hw Hi. rewrite rolling_lookup by (by unfold of_obs; rewrite length_fmap).
  unfold rolling_at. destruct (Nat.ltb_spec (i + 1) w); [lia|].
  by rewrite window_of_obs, mapM_finite_of_obs.
Qed.

Lemma mean_full w (qs : list Q) :
  (1 ≤ w)%nat → length qs = w → mean qs = Fin (Qsum qs / inject_Z (Z.of_nat w)).
Proof.
  intros Hw Hlen. destruct qs as [|q qs]; [simpl in Hlen; lia|].
  unfold mean, Qlen. by rewrite Hlen.
Qed.

(** The simple moving average of finite observations. *)
Lemma rolling_mean_full w qs i :
  (1 ≤ w)%nat → (w ≤ S i)%nat → (i < length qs)%nat →
  rolling mean w (of_obs qs) !! i
  = Some (Fin (Qsum (take w (drop (S i - w) qs)) / inject_Z (Z.of_nat w))).
Proof.
  intros H1 Hw Hi. rewrite rolling_full by done.
  f_equal. apply mean_full; [done|]. by apply length_full_window.
Qed.

Lemma all_finite_of_obs (s : Series) :
  Forall (λ v, ∃ q, v = Fin q) s → ∃ qs, s = of_obs qs.
Proof.
  induction 1 as [|v s [q ->] _ [qs ->]].
  - by exists [].
  - by exists (q :: qs).
Qed.

(** ** Signs of rationals *)

Lemma Qzerob_true q : Qzerob q = true ↔ q == 0.
Proof. unfold Qzerob, Qeq. simpl. rewrite Z.eqb_eq. lia. Qed.

Lemma Qposb_true q : Qposb q = true ↔ 0 < q.
Proof. unfold Qposb, Qlt. simpl. rewrite Z.ltb_lt. lia. Qed.

Lemma Qnegb_true q : Qnegb q = true ↔ q < 0.
Proof. unfold Qnegb, Qlt. simpl. rewrite Z.ltb_lt. lia. Qed.

Lemma Qzerob_false q : Qzerob q = false ↔ ¬ q == 0.
Proof. rewrite <- Qzerob_true. destruct (Qzerob q); split; congruence. Qed.

Lemma Qnegb_false q : Qnegb q = false ↔ 0 <= q.
Proof.
  destruct (Qnegb q) eqn:E.
  - apply Qnegb_true in E. split; [done | lra].
  - split; [|done]. intros _. destruct (Qlt_le_dec q 0) as [Hlt|]; [|done].
    apply Qnegb_true in Hlt. congruence.
Qed.

Lemma fmax_skipna_finite a b :
  ∃ m, fmax_skipna (Fin a) (Fin b) = Fin m ∧ m == Qmax a b.
Proof.
  unfold fmax_skipna, fltb. destruct (Qnegb (a - b)) eqn:E.
  - apply Qnegb_true in E. exists b. split; [done|].
    symmetry. apply Q.max_r. lra.
  - apply Qnegb_false in E. exists a. split; [done|].
    symmetry. apply Q.max_l. lra.
Qed.

(** ** Average true range *)

Lemma length_true_range hs ls cs :
  length (true_range (of_obs hs) (of_obs ls) (of_obs cs))
  = (length hs `min` (length ls `min` length cs))%nat.
Proof.
  unfold true_range, elementwise, of_obs.
  rewrite !length_zip_with, !length_fmap, !length_zip_with, !length_shift1, !length_fmap.
  lia.
Qed.

Lemma true_range_first hs ls cs h0 l0 c0 :
  hs !! 0%nat = Some h0 → ls !! 0%nat = Some l0 → cs !! 0%nat = Some c0 →
  true_range (of_obs hs) (of_obs ls) (of_obs cs) !! 0%nat = Some (Fin (h0 - l0)).
Proof.
  intros Hh Hl Hc. unfold true_range, elementwise.
  rewrite !lookup_zip_with, !list_lookup_fmap, !lookup_zip_with.
  rewrite !of_obs_lookup, Hh, Hl.
  rewrite (shift1_lookup_0 (of_obs cs) (Fin c0)) by by rewrite of_obs_lookup, Hc.
  reflexivity.
Qed.

Lemma true_range_next hs ls cs t ht lt ct cp :
  hs !! S t = Some ht → ls !! S t = Some lt →
  cs !! S t = Some ct → cs !! t = Some cp →
  ∃ v, true_range (of_obs hs) (of_obs ls) (of_obs cs) !! S t = Some (Fin v)
       ∧ v == Qmax (Qmax (ht - lt) (Qabs (ht - cp))) (Qabs (lt - cp)).
Proof.
  intros Hh Hl Hc Hp. unfold true_range, elementwise.
  rewrite !lookup_zip_with, !list_lookup_fmap, !lookup_zip_with.
  rewrite !of_obs_lookup, Hh, Hl.
  rewrite (shift1_lookup_S (of_obs cs) t (Fin ct)) by by rewrite of_obs_lookup, Hc.
  rewrite of_obs_lookup, Hp. cbn -[Qabs Qplus Qopp Qminus fmax_skipna Qmax].
  change (ht + - lt) with (ht - lt). change (ht + - cp) with (ht - cp).
  change (lt + - cp) with (lt - cp).
  destruct (fmax_skipna_finite (ht - lt) (Qabs (ht - cp))) as (m1 & -> & Hm1).
  destruct (fmax_skipna_finite m1 (Qabs (lt - cp))) as (m2 & -> & Hm2).
  exists m2. split; [done|]. by rewrite Hm2, Hm1.
Qed.

Lemma true_range_finite hs ls cs :
  ∃ tr, true_range (of_obs hs) (of_obs ls) (of_obs cs) = of_obs tr.
Proof.
  apply all_finite_of_obs, Forall_lookup. intros i v Hv.
  pose proof (lookup_lt_Some _ _ _ Hv) as Hi. rewrite length_true_range in Hi.
  destruct (lookup_lt_is_Some_2 hs i) as [h Hh]; [lia|].
  destruct (lookup_lt_is_Some_2 ls i) as [l Hl]; [lia|].
  destruct (lookup_lt_is_Some_2 cs i) as [c Hc]; [lia|].
  destruct i as [|t].
  - rewrite (true_range_first _ _ _ _ _ _ Hh Hl Hc) in Hv. injection Hv as <-. eauto.
  - destruct (lookup_lt_is_Some_2 cs t) as [cp Hp]; [lia|].
    destruct (true_range_next _ _ _ _ _ _ _ _ Hh Hl Hc Hp) as (q & Hq & _).
    rewrite Hq in Hv. injection Hv as <-. eauto.
Qed.

(** C8.  [atr] raises exactly when one of [high], [low], [adjClose] is
    missing, and then with the [ValueError] of its column check; with the
    three columns it returns the simple moving average, over [window], of
    the true range
    [max(high[t]-low[t], |high[t]-adjClose[t-1]|, |low[t]-adjClose[t-1]|)]
    (at the first bar, which has no previous close, [high[0]-low[0]]). *)
Theorem atr_missing_column_iff (data : Frame) (window : nat) :
  ((∃ e, atr data window = Raise e) ↔
   (data !! "high" = None ∨ data !! "low" = None ∨ data !! "adjClose" = None))
  ∧ (∀ e, atr data window = Raise e →
          e = ValueError "Data must contain high, low, and adjClose columns")
  ∧ (∀ hs ls cs,
       data !! "high" = Some hs → data !! "low" = Some ls →
       data !! "adjClose" = Some cs →
       ∃ tr : list Q,
         atr data window = Ok (rolling mean window (of_obs tr))
         ∧ length tr = (length hs `min` (length ls `min` length cs))%nat
         ∧ (∀ h0 l0 c0, hs !! 0%nat = Some h0 → ls !! 0%nat = Some l0 →
              cs !! 0%nat = Some c0 → tr !! 0%nat = Some (h0 - l0))
         ∧ (∀ t ht lt ct cp,
              hs !! S t = Some ht → ls !! S t = Some lt →
              cs !! S t = Some ct → cs !! t = Some cp →
              ∃ v, tr !! S t = Some v
                   ∧ v == Qmax (Qmax (ht - lt) (Qabs (ht - cp))) (Qabs (lt - cp)))
         ∧ (∀ i, (i + 1 < window)%nat → (i < length tr)%nat →
              rolling mean window (of_obs tr) !! i = Some NaN)
         ∧ (∀ i, (1 ≤ window)%nat → (window ≤ S i)%nat → (i < length tr)%nat →
              rolling mean window (of_obs tr) !! i
              = Some (Fin (Qsum (take window (drop (S i - window) tr))
                           / inject_Z (Z.of_nat window))))).
Proof.
  assert (Hcases :
    (data !! "high" = None ∨ data !! "low" = None ∨ data !! "adjClose" = None)
    ∨ (∃ hs ls cs, data !! "high" = Some hs ∧ data !! "low" = Some ls
                   ∧ data !! "adjClose" = Some cs)).
  { destruct (data !! "high"), (data !! "low"), (data !! "adjClose"); eauto 10. }
  destruct Hcases as [Hmiss | (hs & ls & cs & Hh & Hl & Hc)].
  - assert (Hraise : atr data window
      = Raise (ValueError "Data must contain high, low, and adjClose columns")).
    { unfold atr. rewrite bool_decide_false; [done|].
      rewrite required_columns_present. intros (H1 & H2 & H3).
      destruct Hmiss as [E|[E|E]]; rewrite E in *; by eapply is_Some_None. }
    rewrite Hraise. split; [split; eauto|]. split; [by intros ? [= <-]|].
    intros ? ? ? E1 E2 E3. destruct Hmiss as [E|[E|E]]; congruence.
  - assert (Hok : atr data window
      = Ok (rolling mean window (true_range (of_obs hs) (of_obs ls) (of_obs cs)))).
    { unfold atr. rewrite bool_decide_true.
      - simpl. by rewrite (getitem_present _ _ _ Hh), (getitem_present _ _ _ Hl),
          (getitem_present _ _ _ Hc).
      - rewrite required_columns_present, Hh, Hl, Hc. eauto. }
    rewrite Hok. split; [|split].
    + split; [by intros [? [=]] | intros [E|[E|E]]; congruence].
    + by intros ? [=].
    + intros hs' ls' cs' E1 E2 E3.
      assert (hs' = hs) as -> by congruence.
      assert (ls' = ls) as -> by congruence.
      assert (cs' = cs) as -> by congruence.
      destruct (true_range_finite hs ls cs) as [tr Htr].
      pose proof (length_true_range hs ls cs) as Hlen.
      rewrite Htr in Hlen. unfold of_obs in Hlen. rewrite length_fmap in Hlen.
      exists tr. rewrite Htr. split; [done|]. split; [done|].
      split; [|split; [|split]].
      * intros h0 l0 c0 H0 H1 H2.
        pose proof (true_range_first _ _ _ _ _ _ H0 H1 H2) as Hv.
        rewrite Htr, of_obs_lookup in Hv.
        destruct (tr !! 0%nat); simplify_eq/=; done.
      * intros t ht lt ct cp H0 H1 H2 H3.
        destruct (true_range_next _ _ _ _ _ _ _ _ H0 H1 H2 H3) as (v & Hv & Hmax).
        rewrite Htr, of_obs_lookup in Hv.
        destruct (tr !! S t); simplify_eq/=; eauto.
      * intros i Hw Hi. apply rolling_warmup; [done|].
        by unfold of_obs; rewrite length_fmap.
      * intros i H1 Hw Hi. by apply rolling_mean_full.
Qed.

Lemma atr_missing_column_iff_witness :
  (∃ e, atr df_three 14 = Raise e) ↔
  ((df_three : Frame) !! "high" = None ∨ (df_three : Frame) !! "low" = None
   ∨ (df_three : Frame) !! "adjClose" = None).
Proof. exact (proj1 (atr_missing_column_iff df_three 14)). Defined.

(** ** Bollinger bands *)

Lemma Qsum_nonneg (qs : list Q) : Forall (λ q, 0 <= q) qs → 0 <= Qsum qs.
Proof.
  induction 1 as [|q qs Hq _ IH]; simpl; [lra|].
  change (0 <= q + Qsum qs). lra.
Qed.

Lemma Qsquare_nonneg (a : Q) : 0 <= a * a.
Proof. unfold Qle, Qmult. simpl. nia. Qed.

Lemma sq_dev_nonneg (qs : list Q) : 0 <= sq_dev qs.
Proof.
  unfold sq_dev. apply Qsum_nonneg, Forall_fmap, Forall_forall.
  intros x _. apply Qsquare_nonneg.
Qed.

Lemma inject_nat_gt_1 (w : nat) : (2 ≤ w)%nat → 1 < inject_Z (Z.of_nat w).
Proof. intros H. unfold Qlt. simpl. lia. Qed.

Lemma sample_std_full sqrt w (qs : list Q) :
  (2 ≤ w)%nat → length qs = w →
  sample_std sqrt qs = Fin (sqrt (sq_dev qs / (inject_Z (Z.of_nat w) - 1))).
Proof.
  intros Hw Hlen. unfold sample_std, Qlen. rewrite Hlen.
  destruct (Nat.leb_spec w 1); [lia|].
  unfold fsqrt.
  assert (Hnn : 0 <= sq_dev qs / (inject_Z (Z.of_nat w) - 1)).
  { pose proof (inject_nat_gt_1 w Hw). pose proof (sq_dev_nonneg qs).
    apply Qle_shift_div_l; lra. }
  apply Qnegb_false in Hnn. by rewrite Hnn.
Qed.

Lemma fmul_finite_inv s k w : fmul s (Fin k) = Fin w → ∃ q, s = Fin q ∧ w = q * k.
Proof.
  destruct s as [q| | |]; simpl; try done.
  - intros [= <-]. eauto.
  - by destruct (Qzerob k), (Qposb k).
  - by destruct (Qzerob k), (Qnegb k).
Qed.

Lemma fadd_finite_inv a b u : fadd a b = Fin u → ∃ x y, a = Fin x ∧ b = Fin y ∧ u = x + y.
Proof. destruct a, b; simpl; try done. intros [= <-]. eauto. Qed.

Lemma sample_std_short sqrt (qs : list Q) :
  (length qs ≤ 1)%nat → sample_std sqrt qs = NaN.
Proof.
  intros H. unfold sample_std. by destruct (Nat.leb_spec (length qs) 1); [|lia].
Qed.

Lemma fadd_nan_r a : fadd a NaN = NaN.
Proof. by destruct a. Qed.

(** C9, as amended.  [bollinger_bands] returns as [middle] the
    [window]-point simple moving average and builds the bands from it and
    from the rolling sample standard deviation [std] (the square root of
    the squared deviations from the window mean, summed and divided by
    [window - 1]): at every position [upper = middle + std * num_std] and
    [lower = middle - std * num_std].  The first [window - 1] points of
    the three series are undefined; with a window of one point or none the
    deviation, and with it both bands, are undefined everywhere. *)
Theorem bollinger_bands_width
    (sqrt : Q → Q) (data : Frame) (xs : list Q) (window : nat) (num_std : Q) :
  data !! "adjClose" = Some xs →
  ∃ bb std,
    bollinger_bands sqrt data window num_std = Ok bb
    ∧ length (upper bb) = length xs ∧ length (middle bb) = length xs
    ∧ length (lower bb) = length xs ∧ length std = length xs
    ∧ (∀ i m s, middle bb !! i = Some m → std !! i = Some s →
         upper bb !! i = Some (fadd m (fmul s (Fin num_std)))
         ∧ lower bb !! i = Some (fsub m (fmul s (Fin num_std))))
    ∧ (∀ i, (i + 1 < window)%nat → (i < length xs)%nat →
         upper bb !! i = Some NaN ∧ middle bb !! i = Some NaN
         ∧ lower bb !! i = Some NaN ∧ std !! i = Some NaN)
    ∧ (∀ i, (1 ≤ window)%nat → (window ≤ S i)%nat → (i < length xs)%nat →
         middle bb !! i
         = Some (Fin (foldr Qplus 0 (take window (drop (S i - window) xs))
                      / inject_Z (Z.of_nat window))))
    ∧ (∀ i, (2 ≤ window)%nat → (window ≤ S i)%nat → (i < length xs)%nat →
         let win := take window (drop (S i - window) xs) in
         let m := foldr Qplus 0 win / inject_Z (Z.of_nat window) in
         std !! i
         = Some (Fin (sqrt (foldr Qplus 0 ((λ x, (x - m) * (x - m)) <$> win)
                            / (inject_Z (Z.of_nat window) - 1)))))
    ∧ (∀ i, (window ≤ 1)%nat → (i < length xs)%nat →
         std !! i = Some NaN ∧ upper bb !! i = Some NaN ∧ lower bb !! i = Some NaN).
Proof.
  intros Hadj. exists
    {| upper := elementwise fadd (rolling mean window (of_obs xs))
                  ((λ s, fmul s (Fin num_std))
                     <$> rolling (sample_std sqrt) window (of_obs xs));
       middle := rolling mean window (of_obs xs);
       lower := elementwise fsub (rolling mean window (of_obs xs))
                  ((λ s, fmul s (Fin num_std))
                     <$> rolling (sample_std sqrt) window (of_obs xs)) |},
    (rolling (sample_std sqrt) window (of_obs xs)).
  split. { unfold bollinger_bands. by rewrite (getitem_present _ _ _ Hadj). }
  cbn [upper middle lower].
  set (M := rolling mean window (of_obs xs)).
  set (SD := rolling (sample_std sqrt) window (of_obs xs)).
  assert (HlenM : length M = length xs).
  { unfold M, of_obs. by rewrite length_rolling, length_fmap. }
  assert (HlenS : length SD = length xs).
  { unfold SD, of_obs. by rewrite length_rolling, length_fmap. }
  assert (Hobs : length (of_obs xs) = length xs) by (unfold of_obs; by rewrite length_fmap).
  assert (Hbands : ∀ i m s, M !! i = Some m → SD !! i = Some s →
            elementwise fadd M ((λ s, fmul s (Fin num_std)) <$> SD) !! i
            = Some (fadd m (fmul s (Fin num_std)))
            ∧ elementwise fsub M ((λ s, fmul s (Fin num_std)) <$> SD) !! i
              = Some (fsub m (fmul s (Fin num_std)))).
  { intros i m s HM HS. split.
    - rewrite (elementwise_lookup fadd _ _ i m (fmul s (Fin num_std)));
        [done | done | by rewrite list_lookup_fmap, HS].
    - rewrite (elementwise_lookup fsub _ _ i m (fmul s (Fin num_std)));
        [done | done | by rewrite list_lookup_fmap, HS]. }
  split. { rewrite length_elementwise, length_fmap. lia. }
  split; [done|].
  split. { rewrite length_elementwise, length_fmap. lia. }
  split; [done|]. split; [exact Hbands|].
  split; [|split; [|split]].
  - intros i Hw Hi.
    assert (HM : M !! i = Some NaN) by (apply rolling_warmup; lia).
    assert (HS : SD !! i = Some NaN) by (apply rolling_warmup; lia).
    destruct (Hbands i NaN NaN HM HS) as [Hu Hl]. done.
  - intros i H1 Hw Hi. by apply rolling_mean_full.
  - intros i H2 Hw Hi. cbv zeta. unfold SD. rewrite rolling_full by done. f_equal.
    rewrite (sample_std_full sqrt window) by (by try apply length_full_window).
    unfold sq_dev, Qsum, Qlen. by rewrite length_full_window.
  - intros i Hw Hi.
    assert (HS : SD !! i = Some NaN).
    { unfold SD. rewrite rolling_full by lia. f_equal. apply sample_std_short.
      rewrite length_take. lia. }
    destruct (lookup_lt_is_Some_2 M i) as [m HM]; [lia|].
    destruct (Hbands i m NaN HM HS) as [Hu Hl].
    split; [done|]. rewrite Hu, Hl. simpl. unfold fsub. simpl.
    by rewrite !fadd_nan_r.
Qed.

Lemma bollinger_bands_width_witness :
  ∃ bb std,
    bollinger_bands (λ q, q) df_three 2 2 = Ok bb
    ∧ length (upper bb) = 3%nat ∧ length (middle bb) = 3%nat
    ∧ length (lower bb) = 3%nat ∧ length std = 3%nat
    ∧ (∀ i m s, middle bb !! i = Some m → std !! i = Some s →
         upper bb !! i = Some (fadd m (fmul s (Fin 2)))
         ∧ lower bb !! i = Some (fsub m (fmul s (Fin 2))))
    ∧ (∀ i, (i + 1 < 2)%nat → (i < 3)%nat →
         upper bb !! i = Some NaN ∧ middle bb !! i = Some NaN
         ∧ lower bb !! i = Some NaN ∧ std !! i = Some NaN)
    ∧ (∀ i, (1 ≤ 2)%nat → (2 ≤ S i)%nat → (i < 3)%nat →
         middle bb !! i
         = Some (Fin (foldr Qplus 0 (take 2 (drop (S i - 2) [100; 110; 121]))
                      / inject_Z (Z.of_nat 2))))
    ∧ (∀ i, (2 ≤ 2)%nat → (2 ≤ S i)%nat → (i < 3)%nat →
         let win := take 2 (drop (S i - 2) [100; 110; 121]) in
         let m := foldr Qplus 0 win / inject_Z (Z.of_nat 2) in
         std !! i
         = Some (Fin (foldr Qplus 0 ((λ x, (x - m) * (x - m)) <$> win)
                      / (inject_Z (Z.of_nat 2) - 1))))
    ∧ (∀ i, (2 ≤ 1)%nat → (i < 3)%nat →
         std !! i = Some NaN ∧ upper bb !! i = Some NaN ∧ lower bb !! i = Some NaN).
Proof.
  apply (bollinger_bands_width (λ q, q) df_three [100; 110; 121] 2 2).
  reflexivity.
Defined.

(** ** Relative strength index *)

Lemma length_diff s : length (diff s) = length s.
Proof. unfold diff. rewrite length_elementwise, length_shift1. lia. Qed.

Lemma diff_lookup_0 xs x0 : xs !! 0%nat = Some x0 → diff (of_obs xs) !! 0%nat = Some NaN.
Proof.
  intros H. unfold diff.
  rewrite (elementwise_lookup fsub _ _ 0 (Fin x0) NaN); [done| |].
  - by rewrite of_obs_lookup, H.
  - apply (shift1_lookup_0 _ (Fin x0)). by rewrite of_obs_lookup, H.
Qed.

Lemma diff_lookup_S xs k a b :
  xs !! k = Some a → xs !! S k = Some b →
  diff (of_obs xs) !! S k = Some (Fin (b - a)).
Proof.
  intros Ha Hb. unfold diff.
  rewrite (elementwise_lookup fsub _ _ (S k) (Fin b) (Fin a)); [done| |].
  - by rewrite of_obs_lookup, Hb.
  - rewrite (shift1_lookup_S _ _ (Fin b)) by by rewrite of_obs_lookup, Hb.
    by rewrite of_obs_lookup, Ha.
Qed.

(** The gain and the loss of a step, on rationals. *)
Lemma gain_of_lookup_0 xs x0 :
  xs !! 0%nat = Some x0 → gain_of (diff (of_obs xs)) !! 0%nat = Some (Fin 0).
Proof.
  intros H. unfold gain_of, where_. by rewrite list_lookup_fmap, (diff_lookup_0 _ _ H).
Qed.

Lemma loss_of_lookup_0 xs x0 :
  xs !! 0%nat = Some x0 → loss_of (diff (of_obs xs)) !! 0%nat = Some (Fin 0).
Proof.
  intros H. unfold loss_of, where_.
  by rewrite !list_lookup_fmap, (diff_lookup_0 _ _ H).
Qed.

Lemma gain_of_lookup_S xs k a b :
  xs !! k = Some a → xs !! S k = Some b →
  ∃ g, gain_of (diff (of_obs xs)) !! S k = Some (Fin g)
       ∧ 0 <= g ∧ (a < b → 0 < g).
Proof.
  intros Ha Hb. unfold gain_of, where_.
  rewrite list_lookup_fmap, (diff_lookup_S _ _ _ _ Ha Hb).
  cbn -[Qminus]. destruct (Qnegb (0 - (b - a))) eqn:E.
  - apply Qnegb_true in E. exists (b - a). split; [done|]. split; intros; lra.
  - apply Qnegb_false in E. exists 0. split; [done|]. split; intros; lra.
Qed.

Lemma loss_of_lookup_S xs k a b :
  xs !! k = Some a → xs !! S k = Some b →
  ∃ l, loss_of (diff (of_obs xs)) !! S k = Some (Fin l)
       ∧ 0 <= l ∧ (a <= b → l == 0).
Proof.
  intros Ha Hb. unfold loss_of, where_.
  rewrite !list_lookup_fmap, (diff_lookup_S _ _ _ _ Ha Hb).
  cbn -[Qminus Qopp]. destruct (Qnegb (b - a - 0)) eqn:E.
  - apply Qnegb_true in E. exists (- (b - a)). split; [done|]. split; intros; lra.
  - apply Qnegb_false in E. exists (- 0). split; [done|]. split; intros; lra.
Qed.

Lemma length_gain_of s : length (gain_of s) = length s.
Proof. unfold gain_of, where_. by rewrite length_fmap. Qed.

Lemma length_loss_of s : length (loss_of s) = length s.
Proof. unfold loss_of, where_. by rewrite !length_fmap. Qed.

Lemma length_of_obs qs : length (of_obs qs) = length qs.
Proof. unfold of_obs. by rewrite length_fmap. Qed.

(** Gains and losses are finite and non-negative, whatever the prices. *)
Lemma gain_of_finite xs :
  ∃ gq, gain_of (diff (of_obs xs)) = of_obs gq ∧ Forall (λ q, 0 <= q) gq.
Proof.
  assert (H : Forall (λ v, ∃ q, v = Fin q ∧ 0 <= q) (gain_of (diff (of_obs xs)))).
  { apply Forall_lookup. intros i v Hv.
    pose proof (lookup_lt_Some _ _ _ Hv) as Hi.
    rewrite length_gain_of, length_diff, length_of_obs in Hi.
    destruct (lookup_lt_is_Some_2 xs i Hi) as [b Hb]. destruct i as [|k].
    - rewrite (gain_of_lookup_0 _ _ Hb) in Hv. injection Hv as <-. exists 0. split; [done|lra].
    - destruct (lookup_lt_is_Some_2 xs k) as [a Ha]; [lia|].
      destruct (gain_of_lookup_S _ _ _ _ Ha Hb) as (g & Hg & Hnn & _).
      rewrite Hg in Hv. injection Hv as <-. eauto. }
  induction H as [|v s (q & -> & Hq) _ (gq & -> & Hall)].
  - exists []. split; [done | constructor].
  - exists (q :: gq). split; [done | by constructor].
Qed.

Lemma loss_of_finite xs :
  ∃ lq, loss_of (diff (of_obs xs)) = of_obs lq ∧ Forall (λ q, 0 <= q) lq.
Proof.
  assert (H : Forall (λ v, ∃ q, v = Fin q ∧ 0 <= q) (loss_of (diff (of_obs xs)))).
  { apply Forall_lookup. intros i v Hv.
    pose proof (lookup_lt_Some _ _ _ Hv) as Hi.
    rewrite length_loss_of, length_diff, length_of_obs in Hi.
    destruct (lookup_lt_is_Some_2 xs i Hi) as [b Hb]. destruct i as [|k].
    - rewrite (loss_of_lookup_0 _ _ Hb) in Hv. injection Hv as <-. exists 0. split; [done|lra].
    - destruct (lookup_lt_is_Some_2 xs k) as [a Ha]; [lia|].
      destruct (loss_of_lookup_S _ _ _ _ Ha Hb) as (l & Hl & Hnn & _).
      rewrite Hl in Hv. injection Hv as <-. eauto. }
  induction H as [|v s (q & -> & Hq) _ (lq & -> & Hall)].
  - exists []. split; [done | constructor].
  - exists (q :: lq). split; [done | by constructor].
Qed.

Lemma Qsum_zero (qs : list Q) : Forall (λ q, q == 0) qs → Qsum qs == 0.
Proof.
  induction 1 as [|q qs Hq _ IH]; simpl; [reflexivity|].
  change (q + Qsum qs == 0). lra.
Qed.

Lemma Qsum_pos (qs : list Q) j q :
  Forall (λ q, 0 <= q) qs → qs !! j = Some q → 0 < q → 0 < Qsum qs.
Proof.
  intros Hall. revert j. induction Hall as [|x qs Hx Hall IH]; intros j Hj Hq; [done|].
  change (0 < x + Qsum qs). pose proof (Qsum_nonneg qs Hall).
  destruct j as [|j]; simpl in Hj.
  - injection Hj as ->. lra.
  - specialize (IH j Hj Hq). lra.
Qed.

Lemma full_window_lookup {A} w i (l : list A) j :
  (w ≤ S i)%nat → (j < w)%nat →
  take w (drop (S i - w) l) !! j = l !! (S i - w + j)%nat.
Proof. intros Hw Hj. by rewrite lookup_take_lt, lookup_drop. Qed.

Lemma rsi_lookup data xs w i g l :
  data !! "adjClose" = Some xs →
  rolling mean w (gain_of (diff (of_obs xs))) !! i = Some g →
  rolling mean w (loss_of (diff (of_obs xs))) !! i = Some l →
  ∃ s, rsi data w = Ok s ∧ s !! i = Some (rsi_of_rs (fdiv g l)).
Proof.
  intros Hadj Hg Hl. unfold rsi. rewrite (getitem_present _ _ _ Hadj).
  eexists. split; [reflexivity|].
  by rewrite list_lookup_fmap, (elementwise_lookup fdiv _ _ i g l).
Qed.

Lemma rsi_of_zero_loss g l : 0 < g → l == 0 → rsi_of_rs (fdiv (Fin g) (Fin l)) = Fin 100.
Proof.
  intros Hg Hl. unfold fdiv.
  apply Qzerob_true in Hl. rewrite Hl.
  assert (Qzerob g = false) as -> by (apply Qzerob_false; lra).
  apply Qposb_true in Hg. rewrite Hg. reflexivity.
Qed.

Lemma inject_nat_pos (w : nat) : (1 ≤ w)%nat → 0 < inject_Z (Z.of_nat w).
Proof. intros H. unfold Qlt. simpl. lia. Qed.

(** On a strictly increasing series every full window that reaches past
    the first bar has a positive average gain and a zero average loss. *)
Lemma rising_averages xs w i :
  (∀ k a b, xs !! k = Some a → xs !! S k = Some b → a < b) →
  (1 ≤ w)%nat → (w ≤ S i)%nat → (1 ≤ i)%nat → (i < length xs)%nat →
  ∃ g l,
    rolling mean w (gain_of (diff (of_obs xs))) !! i = Some (Fin g)
    ∧ rolling mean w (loss_of (diff (of_obs xs))) !! i = Some (Fin l)
    ∧ 0 < g ∧ l == 0.
Proof.
  intros Hinc H1 Hw Hi1 Hi.
  destruct (gain_of_finite xs) as (gq & Hgq & Hgnn).
  destruct (loss_of_finite xs) as (lq & Hlq & Hlnn).
  assert (Hlg : length gq = length xs).
  { rewrite <- (length_of_obs gq), <- Hgq, length_gain_of, length_diff. apply length_of_obs. }
  assert (Hll : length lq = length xs).
  { rewrite <- (length_of_obs lq), <- Hlq, length_loss_of, length_diff. apply length_of_obs. }
  pose proof (inject_nat_pos w H1) as Hwpos.
  eexists _, _. rewrite Hgq, Hlq.
  rewrite !rolling_mean_full by lia.
  split; [reflexivity|]. split; [reflexivity|]. split.
  - (* the window ends at [i], a step up *)
    destruct i as [|k]; [lia|].
    destruct (lookup_lt_is_Some_2 xs k) as [a Ha]; [lia|].
    destruct (lookup_lt_is_Some_2 xs (S k)) as [b Hb]; [lia|].
    destruct (gain_of_lookup_S _ _ _ _ Ha Hb) as (g & Hg & _ & Hpos).
    rewrite Hgq, of_obs_lookup in Hg.
    destruct (gq !! S k) as [g'|] eqn:Hg'; [|done]. injection Hg as ->.
    assert (0 < Qsum (take w (drop (S (S k) - w) gq))) as Hsum.
    { apply (Qsum_pos _ (w - 1) g).
      - by apply Forall_take, Forall_drop.
      - rewrite full_window_lookup by lia.
        replace (S (S k) - w + (w - 1))%nat with (S k) by lia. done.
      - eauto. }
    apply Qlt_shift_div_l; lra.
  - assert (Hzero : Forall (λ q, q == 0) lq).
    { apply Forall_lookup. intros j q Hq.
      pose proof (lookup_lt_Some _ _ _ Hq) as Hj.
      assert (Hobs : loss_of (diff (of_obs xs)) !! j = Some (Fin q))
        by by rewrite Hlq, of_obs_lookup, Hq.
      destruct (lookup_lt_is_Some_2 xs j) as [b Hb]; [lia|]. destruct j as [|k].
      - rewrite (loss_of_lookup_0 _ _ Hb) in Hobs. by injection Hobs as <-.
      - destruct (lookup_lt_is_Some_2 xs k) as [a Ha]; [lia|].
        destruct (loss_of_lookup_S _ _ _ _ Ha Hb) as (l & Hl & _ & Hz).
        rewrite Hl in Hobs. injection Hobs as <-.
        apply Hz. specialize (Hinc _ _ _ Ha Hb). lra. }
    rewrite (Qsum_zero (take w (drop (S i - w) lq))) by by apply Forall_take, Forall_drop.
    unfold Qdiv. apply Qmult_0_l.
Qed.

(** C5, as amended.  Wherever the rolling average loss is zero and the
    rolling average gain is positive, [rsi] is 100; in particular on every
    strictly increasing series, at every position [i >= 1] whose window is
    full ([i >= window - 1]). *)
Theorem rsi_zero_loss_positive_gain :
  (∀ (data : Frame) (xs : list Q) (window i : nat) (g l : Q),
     data !! "adjClose" = Some xs →
     rolling mean window (gain_of (diff (of_obs xs))) !! i = Some (Fin g) →
     rolling mean window (loss_of (diff (of_obs xs))) !! i = Some (Fin l) →
     l == 0 → 0 < g →
     ∃ s, rsi data window = Ok s ∧ s !! i = Some (Fin 100))
  ∧ (∀ (data : Frame) (xs : list Q) (window i : nat),
       data !! "adjClose" = Some xs →
       (∀ k a b, xs !! k = Some a → xs !! S k = Some b → a < b) →
       (1 ≤ window)%nat → (window ≤ S i)%nat → (1 ≤ i)%nat → (i < length xs)%nat →
       ∃ s, rsi data window = Ok s ∧ s !! i = Some (Fin 100)).
Proof.
  assert (HA : ∀ (data : Frame) (xs : list Q) (window i : nat) (g l : Q),
     data !! "adjClose" = Some xs →
     rolling mean window (gain_of (diff (of_obs xs))) !! i = Some (Fin g) →
     rolling mean window (loss_of (diff (of_obs xs))) !! i = Some (Fin l) →
     l == 0 → 0 < g →
     ∃ s, rsi data window = Ok s ∧ s !! i = Some (Fin 100)).
  { intros data xs w i g l Hadj Hg Hl Hz Hpos.
    destruct (rsi_lookup _ _ _ _ _ _ Hadj Hg Hl) as (s & Hs & Hi).
    exists s. split; [done|]. by rewrite Hi, rsi_of_zero_loss. }
  split; [exact HA|].
  intros data xs w i Hadj Hinc H1 Hw Hi1 Hi.
  destruct (rising_averages xs w i Hinc H1 Hw Hi1 Hi) as (g & l & Hg & Hl & Hpos & Hz).
  by eapply HA.
Qed.

Lemma rsi_zero_loss_positive_gain_witness :
  ∃ s, rsi df_three 2 = Ok s ∧ s !! 1%nat = Some (Fin 100).
Proof.
  apply (proj2 rsi_zero_loss_positive_gain df_three [100; 110; 121] 2%nat 1%nat).
  - reflexivity.
  - intros [|[|[|k]]] a b Ha Hb; simplify_eq/=; reflexivity.
  - lia.
  - lia.
  - lia.
  - simpl. lia.
Defined.

(** C5, as stated, fails: on the flat series 5, 5, 5 with a window of 2
    the average loss at position 1 is zero, and so is the average gain;
    [rsi] is [0/0], that is [NaN], not 100. *)
Lemma rsi_flat_series_is_nan :
  (∃ l, rolling mean 2 (loss_of (diff (of_obs [5; 5; 5]))) !! 1%nat = Some (Fin l)
        ∧ l == 0)
  ∧ rsi {[ "adjClose" := [5; 5; 5] ]} 2 = Ok [NaN; NaN; NaN].
Proof.
  split; [|reflexivity]. eexists. split; reflexivity.
Qed.

(** ** Returns *)

Lemma length_pct_change s : length (pct_change s) = length s.
Proof. unfold pct_change. rewrite length_fmap, length_elementwise, length_shift1. lia. Qed.

Lemma pct_change_lookup_0 xs x0 :
  xs !! 0%nat = Some x0 → pct_change (of_obs xs) !! 0%nat = Some NaN.
Proof.
  intros H. unfold pct_change.
  rewrite list_lookup_fmap, (elementwise_lookup fdiv _ _ 0 (Fin x0) NaN); [done| |].
  - by rewrite of_obs_lookup, H.
  - apply (shift1_lookup_0 _ (Fin x0)). by rewrite of_obs_lookup, H.
Qed.

Lemma pct_change_lookup_S xs k a b :
  xs !! k = Some a → xs !! S k = Some b →
  pct_change (of_obs xs) !! S k = Some (fsub (fdiv (Fin b) (Fin a)) (Fin 1)).
Proof.
  intros Ha Hb. unfold pct_change.
  rewrite list_lookup_fmap, (elementwise_lookup fdiv _ _ (S k) (Fin b) (Fin a)); [done| |].
  - by rewrite of_obs_lookup, Hb.
  - rewrite (shift1_lookup_S _ _ (Fin b)) by by rewrite of_obs_lookup, Hb.
    by rewrite of_obs_lookup, Ha.
Qed.

Lemma length_cumprod_from acc s : length (cumprod_from acc s) = length s.
Proof.
  revert acc. induction s as [|v s IH]; intros acc; [done|].
  simpl. destruct (is_nan v); simpl; by rewrite IH.
Qed.

(** Over a prefix without undefined entries the running product is the
    product of the prefix. *)
Lemma cumprod_from_prefix acc s i :
  (i < length s)%nat →
  Forall (λ v, is_nan v = false) (take (S i) s) →
  cumprod_from acc s !! i = Some (foldl fmul acc (take (S i) s)).
Proof.
  revert acc i. induction s as [|v s IH]; intros acc i Hi Hall; [simpl in Hi; lia|].
  rewrite firstn_cons in Hall. apply Forall_cons in Hall as [Hv Hall].
  simpl. rewrite Hv. destruct i as [|i]; [by rewrite take_0|].
  simpl in Hi. simpl. apply IH; [lia | done].
Qed.

Lemma cumprod_after_first s k :
  s !! 0%nat = Some NaN →
  cumprod s !! S k = cumprod_from (Fin 1) (drop 1 s) !! k
  ∧ cumprod s !! 0%nat = Some NaN.
Proof. destruct s as [|v s]; [done|]. simpl. intros [= ->]. simpl. by rewrite drop_0. Qed.

(** C6, as amended.  [daily[0]] and [cumulative[0]] are undefined and
    [daily[i] = adjClose[i]/adjClose[i-1] - 1] for [i > 0] (with the IEEE
    outcome of a division by zero); for [i > 0], when no [daily[j]] with
    [1 <= j <= i] is undefined, [cumulative[i]] is the product over
    [j = 1..i] of [1 + daily[j]], multiplied in that order starting
    from 1. *)
Theorem calculate_returns_spec (data : Frame) (xs : list Q) :
  data !! "adjClose" = Some xs →
  ∃ r, calculate_returns data = Ok r
    ∧ length (daily r) = length xs ∧ length (cumulative r) = length xs
    ∧ (∀ x0, xs !! 0%nat = Some x0 →
         daily r !! 0%nat = Some NaN ∧ cumulative r !! 0%nat = Some NaN)
    ∧ (∀ i a b, xs !! i = Some a → xs !! S i = Some b →
         daily r !! S i = Some (fsub (fdiv (Fin b) (Fin a)) (Fin 1)))
    ∧ (∀ i, (S i < length xs)%nat →
         (∀ j, (j ≤ i)%nat → daily r !! S j ≠ Some NaN) →
         cumulative r !! S i
         = Some (foldl fmul (Fin 1)
                   (fadd (Fin 1) <$> take (S i) (drop 1 (daily r))))).
Proof.
  intros Hadj. eexists. unfold calculate_returns.
  rewrite (has_column_true _ _ _ Hadj), (getitem_present _ _ _ Hadj). simpl.
  split; [reflexivity|]. cbn [daily cumulative].
  set (d := pct_change (of_obs xs)).
  assert (Hlen : length d = length xs)
    by (unfold d; by rewrite length_pct_change, length_of_obs).
  split; [done|]. split; [by unfold cumprod; rewrite length_cumprod_from, length_fmap|].
  split; [|split].
  - intros x0 H0. split; [by eapply pct_change_lookup_0|].
    eapply (cumprod_after_first _ 0).
    unfold d. by rewrite list_lookup_fmap, (pct_change_lookup_0 _ _ H0).
  - intros i a b Ha Hb. by apply pct_change_lookup_S.
  - intros i Hi Hdef.
    destruct (lookup_lt_is_Some_2 xs 0) as [x0 H0]; [lia|].
    destruct (cumprod_after_first (fadd (Fin 1) <$> d) i) as [-> _].
    { unfold d. by rewrite list_lookup_fmap, (pct_change_lookup_0 _ _ H0). }
    rewrite <- fmap_drop, cumprod_from_prefix.
    + by rewrite fmap_take.
    + rewrite length_fmap, length_drop. lia.
    + apply Forall_lookup. intros j v Hv.
      pose proof (lookup_lt_Some _ _ _ Hv) as Hj. rewrite length_take in Hj.
      rewrite lookup_take_lt, list_lookup_fmap, lookup_drop in Hv by lia.
      change (1 + j)%nat with (S j) in Hv.
      destruct (d !! S j) as [dj|] eqn:Hdj; [|done]. injection Hv as <-.
      destruct dj; try done.
      exfalso. eapply (Hdef j); [lia | done].
Qed.

Lemma calculate_returns_spec_witness :
  ∃ r, calculate_returns df_three = Ok r
    ∧ length (daily r) = 3%nat ∧ length (cumulative r) = 3%nat
    ∧ (∀ x0, Some 100 = Some x0 →
         daily r !! 0%nat = Some NaN ∧ cumulative r !! 0%nat = Some NaN)
    ∧ (∀ i a b, [100; 110; 121] !! i = Some a → [100; 110; 121] !! S i = Some b →
         daily r !! S i = Some (fsub (fdiv (Fin b) (Fin a)) (Fin 1)))
    ∧ (∀ i, (S i < 3)%nat →
         (∀ j, (j ≤ i)%nat → daily r !! S j ≠ Some NaN) →
         cumulative r !! S i
         = Some (foldl fmul (Fin 1)
                   (fadd (Fin 1) <$> take (S i) (drop 1 (daily r))))).
Proof.
  apply (calculate_returns_spec df_three [100; 110; 121]). reflexivity.
Defined.

(** ** The returns and the bands as the machine computes them *)

Set Warnings "-inexact-float".

Section Rounding.
Import PrimFloat.

(** C6, as stated, fails.  On the prices 100, 110, 121 of the worked
    example nothing is missing and no price is zero, yet in doubles the
    running product [(1 * (1 + daily[1])) * (1 + daily[2])] is
    1.2100000000000002, whereas [adjClose[2]/adjClose[0]] is 1.21: the
    product is only near the ratio of the prices.  Where a price is zero
    it is not even near: on 1, 0, 1 no entry is missing, [cumulative[2]]
    is [0 * inf = NaN] and [adjClose[2]/adjClose[0]] is 1; on 0, 0, 5 the
    entry [daily[1]] is [0/0], the running product leaves it out and
    [cumulative[2]] is [+inf]. *)
Lemma calculate_returns_not_price_ratio :
  Doubles.calculate_returns Doubles.df_three
  = Ok {| Doubles.daily := [nan; 0.10000000000000009; 0.10000000000000009]%float;
          Doubles.cumulative := [nan; 1.1000000000000001; 1.2100000000000002]%float |}
  ∧ (121 / 100 = 1.21)%float
  ∧ (1.2100000000000002 =? 121 / 100)%float = false
  ∧ Doubles.calculate_returns {[ "adjClose" := [1; 0; 1]%float ]}
    = Ok {| Doubles.daily := [nan; -1; infinity]%float;
            Doubles.cumulative := [nan; 0; nan]%float |}
  ∧ (1 / 1 = 1)%float
  ∧ Doubles.calculate_returns {[ "adjClose" := [0; 0; 5]%float ]}
    = Ok {| Doubles.daily := [nan; nan; infinity]%float;
            Doubles.cumulative := [nan; nan; infinity]%float |}.
Proof. repeat split; vm_compute; reflexivity. Qed.

(** C9, as stated, fails.  On the same prices with a window of 2 and
    [num_std = 2], at index 2 the middle band is 115.5 and the deviation
    is 7.7781745930520225; the bands are [115.5 + 7.7781745930520225 * 2]
    and [115.5 - 7.7781745930520225 * 2], each rounded, and their
    difference is 31.112698372208101, whereas [2 * 2 * std] is
    31.11269837220809. *)
Lemma bollinger_bands_width_rounds :
  Doubles.bollinger_bands Doubles.df_three 2 2
  = Ok {| Doubles.upper := [nan; 119.14213562373095; 131.05634918610406]%float;
          Doubles.middle := [nan; 105; 115.5]%float;
          Doubles.lower := [nan; 90.857864376269049; 99.943650813895957]%float |}
  ∧ Doubles.rolling Doubles.sample_std 2 [100; 110; 121]%float
    = [nan; 7.0710678118654755; 7.7781745930520225]%float
  ∧ (131.05634918610406 - 99.943650813895957 = 31.112698372208101)%float
  ∧ (2 * 2 * 7.7781745930520225 = 31.11269837220809)%float
  ∧ (131.05634918610406 - 99.943650813895957 =? 2 * 2 * 7.7781745930520225)%float
    = false.
Proof. repeat split; vm_compute; reflexivity. Qed.

(** An operation on an undefined operand is undefined. *)
Lemma div_nan_r x : (x / nan)%float = nan.
Proof.
  rewrite <- (FloatAxioms.SF2Prim_Prim2SF (x / nan)), FloatAxioms.div_spec.
  unfold FloatAxioms.SF64div. by destruct (FloatOps.Prim2SF x).
Qed.

Lemma doubles_shift1_lookup_0 (s : Doubles.Series) x :
  s !! 0%nat = Some x → Doubles.shift1 s !! 0%nat = Some nan.
Proof. by destruct s. Qed.

Lemma doubles_shift1_lookup_S (s : Doubles.Series) i x :
  s !! S i = Some x → Doubles.shift1 s !! S i = s !! i.
Proof.
  intros H. apply lookup_lt_Some in H. destruct s as [|y s]; [simpl in H; lia|].
  unfold Doubles.shift1.
  change ((nan :: removelast (y :: s)) !! S i) with (removelast (y :: s) !! i).
  by apply lookup_removelast.
Qed.

Lemma doubles_length_pct_change (s : Doubles.Series) :
  length (Doubles.pct_change s) = length s.
Proof.
  unfold Doubles.pct_change. rewrite length_fmap, length_zip_with.
  destruct s as [|y s]; [done|]. unfold Doubles.shift1.
  change (length (nan :: removelast (y :: s))) with (S (length (removelast (y :: s)))).
  rewrite length_removelast. simpl. lia.
Qed.

Lemma doubles_pct_change_lookup_0 (s : Doubles.Series) x0 :
  s !! 0%nat = Some x0 → Doubles.pct_change s !! 0%nat = Some nan.
Proof.
  intros H. unfold Doubles.pct_change.
  rewrite list_lookup_fmap, lookup_zip_with, H, (doubles_shift1_lookup_0 _ _ H).
  simpl. by rewrite div_nan_r.
Qed.

Lemma doubles_pct_change_lookup_S (s : Doubles.Series) i a b :
  s !! i = Some a → s !! S i = Some b →
  Doubles.pct_change s !! S i = Some (b / a - 1)%float.
Proof.
  intros Ha Hb. unfold Doubles.pct_change.
  by rewrite list_lookup_fmap, lookup_zip_with, Hb, (doubles_shift1_lookup_S _ _ _ Hb), Ha.
Qed.

Lemma doubles_length_cumprod_from acc (s : Doubles.Series) :
  length (Doubles.cumprod_from acc s) = length s.
Proof.
  revert acc. induction s as [|v s IH]; intros acc; [done|].
  simpl. destruct (is_nan v); simpl; by rewrite IH.
Qed.

Lemma doubles_cumprod_from_prefix acc (s : Doubles.Series) i :
  (i < length s)%nat →
  Forall (λ v, is_nan v = false) (take (S i) s) →
  Doubles.cumprod_from acc s !! i = Some (foldl mul acc (take (S i) s)).
Proof.
  revert acc i. induction s as [|v s IH]; intros acc i Hi Hall; [simpl in Hi; lia|].
  rewrite firstn_cons in Hall. apply Forall_cons in Hall as [Hv Hall].
  simpl. rewrite Hv. destruct i as [|i]; [by rewrite take_0|].
  simpl in Hi. simpl. apply IH; [lia | done].
Qed.

(** The statements of the theorem on the returns hold operation by
    operation on doubles: the entries are the rounded quotients and the
    rounded running products. *)
Lemma calculate_returns_doubles (data : Doubles.Frame) (xs : list float) :
  data !! "adjClose" = Some xs →
  ∃ r, Doubles.calculate_returns data = Ok r
    ∧ length (Doubles.daily r) = length xs
    ∧ length (Doubles.cumulative r) = length xs
    ∧ (∀ x0, xs !! 0%nat = Some x0 →
         Doubles.daily r !! 0%nat = Some nan
         ∧ Doubles.cumulative r !! 0%nat = Some nan)
    ∧ (∀ i a b, xs !! i = Some a → xs !! S i = Some b →
         Doubles.daily r !! S i = Some (b / a - 1)%float)
    ∧ (∀ i, (S i < length xs)%nat →
         (∀ j d, (j ≤ i)%nat → Doubles.daily r !! S j = Some d →
            is_nan (1 + d) = false) →
         Doubles.cumulative r !! S i
         = Some (foldl mul 1%float
                   (add 1 <$> take (S i) (drop 1 (Doubles.daily r))))).
Proof.
  intros Hadj. unfold Doubles.calculate_returns, Doubles.has_column, Doubles.getitem.
  rewrite Hadj, bool_decide_true by eauto. simpl.
  eexists. split; [reflexivity|]. cbn [Doubles.daily Doubles.cumulative].
  set (d := Doubles.pct_change xs).
  assert (Hlen : length d = length xs) by apply doubles_length_pct_change.
  split; [done|].
  split. { unfold Doubles.cumprod. by rewrite doubles_length_cumprod_from, length_fmap. }
  assert (Hfirst : ∀ x0, xs !! 0%nat = Some x0 →
            ∃ rest, add 1 <$> d = nan :: rest ∧ rest = add 1 <$> drop 1 d).
  { intros x0 H0. pose proof (doubles_pct_change_lookup_0 _ _ H0) as Hd. fold d in Hd.
    destruct d as [|d0 d']; [done|]. injection Hd as ->.
    exists (add 1 <$> d'). split; reflexivity. }
  split; [|split].
  - intros x0 H0. split; [exact (doubles_pct_change_lookup_0 _ _ H0)|].
    destruct (Hfirst x0 H0) as (rest & -> & _). reflexivity.
  - intros i a b Ha Hb. by apply doubles_pct_change_lookup_S.
  - intros i Hi Hdef.
    destruct (lookup_lt_is_Some_2 xs 0) as [x0 H0]; [lia|].
    destruct (Hfirst x0 H0) as (rest & -> & ->).
    unfold Doubles.cumprod. cbn [Doubles.cumprod_from].
    change (is_nan nan) with true. cbv iota.
    change ((nan :: ?l) !! S i) with (l !! i).
    rewrite doubles_cumprod_from_prefix.
    + by rewrite fmap_take.
    + rewrite length_fmap, length_drop. lia.
    + apply Forall_lookup. intros j v Hv.
      pose proof (lookup_lt_Some _ _ _ Hv) as Hj. rewrite length_take in Hj.
      rewrite lookup_take_lt, list_lookup_fmap, lookup_drop in Hv by lia.
      change (1 + j)%nat with (S j) in Hv.
      destruct (d !! S j) as [dj|] eqn:Hdj; [|done]. injection Hv as <-.
      eapply (Hdef j); [lia | done].
Qed.

(** Whatever the two rolling series hold, the bands are these sums and
    differences of doubles. *)
Lemma bollinger_bands_doubles (data : Doubles.Frame) xs window num_std :
  data !! "adjClose" = Some xs →
  ∃ bb, Doubles.bollinger_bands data window num_std = Ok bb
    ∧ Doubles.middle bb = Doubles.rolling Doubles.mean window xs
    ∧ ∀ i m s, Doubles.middle bb !! i = Some m →
        Doubles.rolling Doubles.sample_std window xs !! i = Some s →
        Doubles.upper bb !! i = Some (m + s * num_std)%float
        ∧ Doubles.lower bb !! i = Some (m - s * num_std)%float.
Proof.
  intros Hadj. unfold Doubles.bollinger_bands, Doubles.getitem. rewrite Hadj. simpl.
  eexists. split; [reflexivity|]. split; [reflexivity|].
  cbn [Doubles.upper Doubles.middle Doubles.lower].
  intros i m s Hm Hs. by rewrite !lookup_zip_with, list_lookup_fmap, Hm, Hs.
Qed.

End Rounding.

(** ** Exponentially weighted means and MACD *)

Lemma Qpower_succ (r : Q) (i : nat) : r ^ Z.of_nat (S i) == r * r ^ Z.of_nat i.
Proof.
  replace (Z.of_nat (S i)) with (1 + Z.of_nat i)%Z by lia.
  rewrite Qpower_plus' by lia. by rewrite Qpower_1_r.
Qed.

Lemma Qsum_cons q qs : Qsum (q :: qs) = q + Qsum qs.
Proof. reflexivity. Qed.

(** Moving every weight one step into the past multiplies the sums by
    [1 - alpha]. *)
Lemma weights_shift r (s n : nat) (l : list Q) :
  Qsum (zip_with Qmult ((λ i, r ^ Z.of_nat (S i)) <$> seq s n) l)
  == r * Qsum (zip_with Qmult ((λ i, r ^ Z.of_nat i) <$> seq s n) l).
Proof.
  revert s l. induction n as [|n IH]; intros s l; [simpl; ring|].
  destruct l as [|x l]; [simpl; ring|].
  cbn [seq fmap list_fmap zip_with]. rewrite !Qsum_cons, IH, Qpower_succ. ring.
Qed.

Lemma weights_total_shift r (s n : nat) :
  Qsum ((λ i, r ^ Z.of_nat (S i)) <$> seq s n)
  == r * Qsum ((λ i, r ^ Z.of_nat i) <$> seq s n).
Proof.
  revert s. induction n as [|n IH]; intros s; [simpl; ring|].
  cbn [seq fmap list_fmap]. rewrite !Qsum_cons, IH, Qpower_succ. ring.
Qed.

Lemma ewma_weights_succ alpha n :
  ewma_weights alpha (S n)
  = (1 - alpha) ^ 0 :: ((λ i, (1 - alpha) ^ Z.of_nat (S i)) <$> seq 0 n).
Proof.
  unfold ewma_weights. cbn [seq fmap list_fmap]. f_equal.
  by rewrite <- fmap_S_seq, <- list_fmap_compose.
Qed.

Lemma weights_total_succ alpha n :
  Qsum (ewma_weights alpha (S n)) == 1 + (1 - alpha) * Qsum (ewma_weights alpha n).
Proof.
  rewrite ewma_weights_succ, Qsum_cons, weights_total_shift. reflexivity.
Qed.

Lemma weighted_sum_cons alpha x past :
  weighted_sum alpha (x :: past) == x + (1 - alpha) * weighted_sum alpha past.
Proof.
  unfold weighted_sum. cbn [length]. rewrite ewma_weights_succ.
  cbn [zip_with]. rewrite Qsum_cons, weights_shift.
  change ((1 - alpha) ^ 0) with 1. unfold ewma_weights. ring.
Qed.

Lemma weights_total_ge_1 alpha n :
  0 <= 1 - alpha → 1 <= Qsum (ewma_weights alpha (S n)).
Proof.
  intros Hr. induction n as [|n IH].
  - rewrite weights_total_succ. simpl. lra.
  - rewrite weights_total_succ. nra.
Qed.

Lemma alpha_of_span_range span :
  0 < alpha_of_span span ∧ 0 <= 1 - alpha_of_span span.
Proof.
  unfold alpha_of_span.
  assert (H : 2 <= inject_Z (Z.pos span) + 1).
  { assert (1 <= inject_Z (Z.pos span)) by (unfold Qle; simpl; lia). lra. }
  split.
  - apply Qlt_shift_div_l; lra.
  - assert (2 / (inject_Z (Z.pos span) + 1) <= 1); [|lra].
    apply Qle_shift_div_r; lra.
Qed.

Lemma ewm_step_finite alpha y ow n x :
  0 <= 1 - alpha → 0 <= ow →
  ∃ y', ewm_step alpha {| weighted := Fin y; old_wt := ow; nobs := n |} (Fin x)
        = {| weighted := Fin y'; old_wt := ow * (1 - alpha) + 1; nobs := (n + 1)%nat |}
        ∧ y' * (ow * (1 - alpha) + 1) == ow * (1 - alpha) * y + x.
Proof.
  intros Hr How. unfold ewm_step. cbn -[Qmult Qplus Qminus Qdiv].
  assert (Hpos : 0 < ow * (1 - alpha) + 1).
  { pose proof (Qmult_le_0_compat _ _ How Hr). lra. }
  destruct (Qeq_bool y x) eqn:E.
  - apply Qeq_bool_iff in E. exists y. split; [done|]. rewrite <- E. ring.
  - assert (Qzerob (ow * (1 - alpha) + 1) = false) as -> by (apply Qzerob_false; lra).
    eexists. split; [reflexivity|]. field. lra.
Qed.

(** The running form carries the closed form: after the observations
    [past] (newest first) the state holds their weighted average and the
    sum of their weights, and every later output is the weighted average
    of all observations so far. *)
Lemma ewm_run_finite alpha (rest past : list Q) y ow n :
  0 <= 1 - alpha → (1 ≤ n)%nat → (1 ≤ length past)%nat →
  ow == Qsum (ewma_weights alpha (length past)) →
  y * ow == weighted_sum alpha past →
  ∃ ys, ewm_run alpha 0 {| weighted := Fin y; old_wt := ow; nobs := n |} (of_obs rest)
        = of_obs ys
      ∧ length ys = length rest
      ∧ ∀ j yj, ys !! j = Some yj →
          yj * Qsum (ewma_weights alpha (S j + length past))
          == weighted_sum alpha (reverse (take (S j) rest) ++ past).
Proof.
  intros Hr. revert past y ow n.
  induction rest as [|x rest IH]; intros past y ow n Hn Hpast How Hy.
  - exists []. split; [done|]. split; [done|]. intros j yj [=].
  - assert (Hge : 1 <= ow).
    { rewrite How. destruct (length past) as [|m] eqn:E; [lia|].
      by apply weights_total_ge_1. }
    destruct (ewm_step_finite alpha y ow n x Hr) as (y' & Hstep & Hy'); [lra|].
    assert (How' : ow * (1 - alpha) + 1
                   == Qsum (ewma_weights alpha (length (x :: past)))).
    { cbn [length]. rewrite weights_total_succ, How. ring. }
    assert (Hys' : y' * (ow * (1 - alpha) + 1) == weighted_sum alpha (x :: past)).
    { rewrite Hy', weighted_sum_cons, <- Hy. ring. }
    destruct (IH (x :: past) y' (ow * (1 - alpha) + 1) (n + 1)%nat) as (ys & Hrun & Hlen & Hall);
      [lia | simpl; lia | done | done |].
    exists (y' :: ys). split; [|split].
    + cbn [of_obs fmap list_fmap ewm_run]. rewrite Hstep.
      unfold ewm_emit. cbn [nobs weighted].
      destruct (Nat.leb_spec (Nat.max 0 1) (n + 1)) as [_|Hlt]; [|simpl in Hlt; lia].
      f_equal. exact Hrun.
    + simpl. by rewrite Hlen.
    + intros [|j] yj Hj.
      * injection Hj as <-.
        change (reverse (take 1 (x :: rest)) ++ past) with (x :: past).
        change (1 + length past)%nat with (length (x :: past)).
        rewrite <- How'. exact Hys'.
      * specialize (Hall j yj Hj). cbn [length] in Hall.
        replace (S (S j) + length past)%nat with (S j + S (length past))%nat by lia.
        rewrite Hall. rewrite firstn_cons, reverse_cons, <- app_assoc. reflexivity.
Qed.

(** [s.ewm(span=n).mean()] on finite observations: every position has a
    value from the first one on, the first value is the first observation,
    and the values are the weighted averages of the closed form with
    [alpha = 2/(span+1)]. *)
Lemma ewm_mean_finite span (xs : list Q) :
  ∃ ys, ewm_mean span 0 (of_obs xs) = of_obs ys
      ∧ length ys = length xs
      ∧ head ys = head xs
      ∧ Forall2 Qeq ys (ewma (2 / (inject_Z (Z.pos span) + 1)) xs).
Proof.
  change (2 / (inject_Z (Z.pos span) + 1)) with (alpha_of_span span).
  destruct (alpha_of_span_range span) as [_ Hr].
  set (alpha := alpha_of_span span) in *.
  destruct xs as [|x0 rest].
  { exists []. repeat split; constructor. }
  destruct (ewm_run_finite alpha rest [x0] x0 1 1 Hr) as (ys & Hrun & Hlen & Hall);
    [lia | simpl; lia | | |].
  { cbn [length]. rewrite weights_total_succ. change (Qsum (ewma_weights alpha 0)) with 0. ring. }
  { rewrite weighted_sum_cons. change (weighted_sum alpha []) with 0. ring. }
  exists (x0 :: ys). split; [|split; [|split]].
  - cbn [of_obs fmap list_fmap ewm_mean]. fold alpha. f_equal. exact Hrun.
  - simpl. by rewrite Hlen.
  - reflexivity.
  - apply Forall2_same_length_lookup. split.
    { unfold ewma. simpl. by rewrite length_fmap, length_seq, Hlen. }
    intros t y e Hy He. unfold ewma in He.
    rewrite list_lookup_fmap in He.
    destruct (seq 0 (length (x0 :: rest)) !! t) as [t'|] eqn:Ht; [|done].
    apply lookup_seq in Ht as [-> _]. injection He as <-.
    unfold ewma_at. simpl Nat.add.
    assert (Hpos : 1 <= Qsum (ewma_weights alpha (S t))) by by apply weights_total_ge_1.
    assert (Hnum : y * Qsum (ewma_weights alpha (S t))
                   == weighted_sum alpha (reverse (take (S t) (x0 :: rest)))).
    { destruct t as [|j].
      - injection Hy as <-. rewrite weights_total_succ.
        change (reverse (take 1 (x0 :: rest))) with [x0].
        rewrite weighted_sum_cons.
        change (weighted_sum alpha []) with 0.
        change (Qsum (ewma_weights alpha 0)) with 0. ring.
      - simpl in Hy. specialize (Hall j y Hy).
        replace (S j + length [x0])%nat with (S (S j)) in Hall by (simpl; lia).
        rewrite Hall, firstn_cons, reverse_cons. reflexivity. }
    rewrite <- Hnum. field. lra.
Qed.

Lemma elementwise_fsub_of_obs (a b : list Q) :
  elementwise fsub (of_obs a) (of_obs b) = of_obs (zip_with Qminus a b).
Proof.
  revert b. induction a as [|x a IH]; intros [|y b]; [done..|].
  unfold elementwise, of_obs in *. cbn [fmap list_fmap zip_with]. f_equal. apply IH.
Qed.

(** C7.  [macd] returns, with a value at every position from the first
    one on, [macd_line = ema_fast - ema_slow] and the signal line, where
    each of [ema_fast], [ema_slow] and the signal line is the exponentially
    weighted average, with [alpha = 2/(span+1)], of its input (the prices,
    the prices, the MACD line), and starts at the first value of that
    input. *)
Theorem macd_exponential_averages
    (data : Frame) (xs : list Q) (fast slow signal : positive) :
  data !! "adjClose" = Some xs →
  ∃ ema_fast ema_slow macd_line signal_line : list Q,
    macd data fast slow signal = Ok (of_obs macd_line, of_obs signal_line)
    ∧ macd_line = zip_with Qminus ema_fast ema_slow
    ∧ Forall2 Qeq ema_fast (ewma (2 / (inject_Z (Z.pos fast) + 1)) xs)
    ∧ Forall2 Qeq ema_slow (ewma (2 / (inject_Z (Z.pos slow) + 1)) xs)
    ∧ Forall2 Qeq signal_line (ewma (2 / (inject_Z (Z.pos signal) + 1)) macd_line)
    ∧ head ema_fast = head xs ∧ head ema_slow = head xs
    ∧ head signal_line = head macd_line
    ∧ length macd_line = length xs ∧ length signal_line = length xs.
Proof.
  intros Hadj.
  destruct (ewm_mean_finite fast xs) as (ef & Hef & Hlf & Hhf & Hqf).
  destruct (ewm_mean_finite slow xs) as (es & Hes & Hls & Hhs & Hqs).
  destruct (ewm_mean_finite signal (zip_with Qminus ef es)) as (sl & Hsl & Hlsl & Hhsl & Hqsl).
  exists ef, es, (zip_with Qminus ef es), sl.
  assert (Hlm : length (zip_with Qminus ef es) = length xs).
  { rewrite length_zip_with. lia. }
  split; [|repeat split; try done; congruence].
  unfold macd. rewrite (getitem_present _ _ _ Hadj). simpl.
  by rewrite Hef, Hes, elementwise_fsub_of_obs, Hsl.
Qed.

Lemma macd_exponential_averages_witness :
  ∃ ema_fast ema_slow macd_line signal_line : list Q,
    macd df_three 12 26 9 = Ok (of_obs macd_line, of_obs signal_line)
    ∧ macd_line = zip_with Qminus ema_fast ema_slow
    ∧ Forall2 Qeq ema_fast (ewma (2 / (inject_Z 12 + 1)) [100; 110; 121])
    ∧ Forall2 Qeq ema_slow (ewma (2 / (inject_Z 26 + 1)) [100; 110; 121])
    ∧ Forall2 Qeq signal_line (ewma (2 / (inject_Z 9 + 1)) macd_line)
    ∧ head ema_fast = Some 100 ∧ head ema_slow = Some 100
    ∧ head signal_line = head macd_line
    ∧ length macd_line = 3%nat ∧ length signal_line = 3%nat.
Proof.
  apply (macd_exponential_averages df_three [100; 110; 121] 12 26 9). reflexivity.
Defined.

(* ================================================================= *)
(** * Further properties of the code *)

(** ** Saving and loading *)

Lemma save_data_append_run df t w :
  Database.save_data df t Database.append w
  = (Ok (), {| tables := <[t := default [] (tables w !! t)
                                ++ (Database.to_sql_row <$> df)]> (tables w);
               stdout := stdout w; requests := requests w |}).
Proof. unfold Database.save_data. by destruct (tables w !! t). Qed.

Lemma filter_all {A} (P : A → Prop) `{∀ x, Decision (P x)} (l : list A) :
  Forall P l → filter P l = l.
Proof.
  induction 1 as [|x l Hx _ IH]; [done|]. by rewrite filter_cons_True, IH.
Qed.

Lemma filter_none {A} (P : A → Prop) `{∀ x, Decision (P x)} (l : list A) :
  Forall (λ x, ¬ P x) l → filter P l = [].
Proof.
  induction 1 as [|x l Hx _ IH]; [done|]. by rewrite filter_cons_False, IH.
Qed.

(** X1.  Appending never fails, whatever the name of the table, and never
    looks at what is already stored.  The dates go into the table as
    timestamp text and come back as the days they were: a load without
    bounds, under a name the engine reads as the table, returns what the
    table held before followed by the rows of [df], so saving the same
    rows again stores them twice.  A load bounded above by a day returns
    none of the saved rows of that day.  Under a name the engine does not
    read as the table the rows are stored all the same and every load
    raises.  The other tables are left as they were. *)
Theorem save_append_then_load
    (env : Env) (df : list Row) (t : string) (w : World) :
  ∃ w', Database.save_data df t Database.append w = (Ok (), w')
    ∧ Database.table_exists t w' = (Ok true, w')
    ∧ tables w' !! t
      = Some (default [] (tables w !! t) ++ (Database.to_sql_row <$> df))
    ∧ (unquoted_name_error env t = None →
       Database.load_data env t None None w'
       = (Ok ((Database.of_sql_row <$> default [] (tables w !! t)) ++ df), w')
       ∧ ∀ s day, day ≠ "" → Forall (λ r, date r = day) df →
           Database.load_data env t s (Some day) w'
           = (Ok (Database.of_sql_row
                    <$> filter (λ r, Database.satisfies
                                       (Database.date_conditions s (Some day)) r = true)
                          (default [] (tables w !! t))), w'))
    ∧ (∀ msg s e, unquoted_name_error env t = Some msg →
         Database.load_data env t s e w' = (Raise (OperationalError msg), w'))
    ∧ (∀ t', t' ≠ t → tables w' !! t' = tables w !! t')
    ∧ stdout w' = stdout w ∧ requests w' = requests w.
Proof.
  eexists. split; [apply save_data_append_run|]. simpl.
  split; [|split; [|split; [|split; [|split]]]].
  - rewrite table_exists_run. simpl. rewrite lookup_insert_eq.
    by rewrite bool_decide_true by eauto.
  - by rewrite lookup_insert_eq.
  - intros Hn. split.
    + erewrite load_data_known; [|done|apply lookup_insert_eq].
      rewrite filter_all by (apply Forall_forall; done).
      by rewrite fmap_app, of_sql_rows_to_sql_rows.
    + intros s day Hne Hday.
      erewrite load_data_known; [|done|apply lookup_insert_eq].
      rewrite filter_app.
      rewrite (filter_none _ (Database.to_sql_row <$> df)); [by rewrite app_nil_r|].
      apply Forall_fmap. eapply Forall_impl; [exact Hday|].
      intros r Hr. simpl. rewrite (end_day_not_selected s day); [done|done|].
      by rewrite <- Hr.
  - intros msg s e Hn. by apply load_data_unreadable.
  - intros t' Hne. simpl. by rewrite lookup_insert_ne.
  - done.
Qed.

(** ** The rows a fetch returns *)

Lemma string_leb_trans s1 s2 s3 :
  String.leb s1 s2 = true → String.leb s2 s3 = true → String.leb s1 s3 = true.
Proof.
  unfold String.leb. revert s2 s3.
  induction s1 as [|a s1 IH]; intros [|b s2] [|c s3]; simpl; try done.
  unfold Ascii.compare.
  destruct (N.compare_spec (Ascii.N_of_ascii a) (Ascii.N_of_ascii b)) as [E1|E1|E1];
    destruct (N.compare_spec (Ascii.N_of_ascii b) (Ascii.N_of_ascii c)) as [E2|E2|E2];
    try done.
  - rewrite E1, E2, N.compare_refl. apply IH.
  - intros _ _. rewrite E1. by apply N.compare_lt_iff in E2 as ->.
  - intros _ _. rewrite <- E2. by apply N.compare_lt_iff in E1 as ->.
  - intros _ _. assert (Ascii.N_of_ascii a < Ascii.N_of_ascii c)%N as Hlt by lia.
    by apply N.compare_lt_iff in Hlt as ->.
Qed.

#[local] Instance date_le_total : Total DataFetch.date_le.
Proof. intros r1 r2. apply String.leb_total. Qed.

#[local] Instance date_le_trans : Transitive DataFetch.date_le.
Proof. intros r1 r2 r3. apply string_leb_trans. Qed.

Lemma sort_index_sorted df : StronglySorted DataFetch.date_le (DataFetch.sort_index df).
Proof. apply StronglySorted_merge_sort; apply _. Qed.

Lemma sort_index_permutation df : DataFetch.sort_index df ≡ₚ df.
Proof. apply merge_sort_Permutation. Qed.

Section FetchPaths.
Import DataFetch.
Context (env : Env).

Lemma fetch_data_start ticker start_date end_date freq w :
  fetch_data env ticker start_date end_date freq w
  = try_except
      (df ← get_ticker_price env (request_of env ticker start_date end_date freq);
       if negb (empty df)
       then df ← parse_dates env df; mret (sort_index df)
       else mret df)
      (λ e,
        (if contains "API limit reached" (str e)
         then print "Tiingo API limit reached - try again later or upgrade your plan"
         else if contains "Invalid token" (str e)
         then print "Invalid API token - check your .env file"
         else print ("Error fetching data for " +:+ ticker +:+ ": " +:+ str e));;
        mret []) w.
Proof. unfold fetch_data, request_of. by destruct end_date. Qed.

(** The service has no bar for the request. *)
Lemma fetch_data_no_prices ticker start_date end_date freq w :
  client env (request_of env ticker start_date end_date freq) = Prices [] →
  fetch_data env ticker start_date end_date freq w
  = (Ok [], called (request_of env ticker start_date end_date freq) w).
Proof.
  intros H. rewrite fetch_data_start. unfold try_except.
  rewrite run_bind. unfold get_ticker_price. by rewrite H.
Qed.

(** The service answers bars and every date parses. *)
Lemma fetch_data_parsed ticker start_date end_date freq w b bars df' :
  client env (request_of env ticker start_date end_date freq) = Prices (b :: bars) →
  parse_dates env (b :: bars) (called (request_of env ticker start_date end_date freq) w)
  = (Ok df', called (request_of env ticker start_date end_date freq) w) →
  fetch_data env ticker start_date end_date freq w
  = (Ok (sort_index df'), called (request_of env ticker start_date end_date freq) w).
Proof.
  intros H Hp. rewrite fetch_data_start. unfold try_except.
  rewrite run_bind. unfold get_ticker_price. rewrite H. simpl.
  by rewrite run_bind, Hp.
Qed.

(** The service answers bars, one of which has a date that does not
    parse. *)
Lemma fetch_data_unparsed ticker start_date end_date freq w b bars e :
  client env (request_of env ticker start_date end_date freq) = Prices (b :: bars) →
  parse_dates env (b :: bars) (called (request_of env ticker start_date end_date freq) w)
  = (Raise e, called (request_of env ticker start_date end_date freq) w) →
  ∃ line, fetch_data env ticker start_date end_date freq w
          = (Ok [], printed line (called (request_of env ticker start_date end_date freq) w)).
Proof.
  intros H Hp. rewrite fetch_data_start. unfold try_except.
  rewrite run_bind. unfold get_ticker_price. rewrite H. simpl.
  rewrite run_bind, Hp. apply handler_outcome.
Qed.

(** Every way [fetch_data] can end. *)
Lemma fetch_data_paths ticker start_date end_date freq w :
  let rq := request_of env ticker start_date end_date freq in
  (fetch_data env ticker start_date end_date freq w = (Ok [], called rq w))
  ∨ (∃ line, fetch_data env ticker start_date end_date freq w
             = (Ok [], printed line (called rq w)))
  ∨ (∃ bars df', client env rq = Prices bars ∧ bars ≠ []
       ∧ parse_dates env bars (called rq w) = (Ok df', called rq w)
       ∧ fetch_data env ticker start_date end_date freq w
         = (Ok (sort_index df'), called rq w)).
Proof.
  intros rq. destruct (client env rq) as [[|b bars]|msg] eqn:Hc.
  - left. by apply fetch_data_no_prices.
  - destruct (parse_dates_outcome env (b :: bars) (called rq w)) as [[df' Hp]|[e Hp]].
    + right. right. exists (b :: bars), df'. split; [done|]. split; [done|].
      split; [done|]. by eapply fetch_data_parsed.
    + right. left. by eapply fetch_data_unparsed.
  - right. left.
    pose proof (fetch_data_outcome env ticker start_date end_date freq w) as H.
    simpl in H. fold rq in H. by rewrite Hc in H.
Qed.

End FetchPaths.

Lemma parse_dates_pure env bars w1 w2 df' :
  DataFetch.parse_dates env bars w1 = (Ok df', w1) →
  DataFetch.parse_dates env bars w2 = (Ok df', w2).
Proof.
  unfold DataFetch.parse_dates. destruct (mapM _ bars); [|done].
  by intros [= ->].
Qed.

Lemma parse_dates_unparsable env bars r w :
  r ∈ bars → to_datetime env (date r) = None →
  DataFetch.parse_dates env bars w
  = (Raise (ValueError "Unknown datetime string format"), w).
Proof.
  intros Hr Hnone. unfold DataFetch.parse_dates.
  destruct (mapM _ bars) as [df'|] eqn:E; [|done].
  assert (His : is_Some (mapM (λ r, d ← to_datetime env (date r);
                     Some {| date := d; open := open r; high := high r; low := low r;
                             close := close r; adjClose := adjClose r;
                             volume := volume r |}) bars)) by (rewrite E; eauto).
  apply mapM_is_Some in His. rewrite Forall_forall in His.
  specialize (His r Hr). simpl in His. rewrite Hnone in His. by destruct His.
Qed.

(** X2.  Whatever [fetch_data] returns is in ascending order of date; and
    when the service answers bars whose dates all parse, the result is
    those bars with their parsed dates, rearranged and none lost. *)
Theorem fetch_data_sorted_by_date
    (env : Env) (ticker start_date : string) (end_date : option string)
    (freq : string) (w w' : World) (df : list Row) :
  DataFetch.fetch_data env ticker start_date end_date freq w = (Ok df, w') →
  StronglySorted DataFetch.date_le df
  ∧ (∀ bars parsed,
       client env (DataFetch.request_of env ticker start_date end_date freq)
       = Prices bars →
       DataFetch.parse_dates env bars w = (Ok parsed, w) →
       df ≡ₚ parsed).
Proof.
  intros Hf.
  destruct (fetch_data_paths env ticker start_date end_date freq w)
    as [H|[[line H]|(bars & df' & Hc & Hne & Hp & H)]];
    rewrite H in Hf; injection Hf as <- <-.
  - split; [constructor|]. intros bars parsed Hc Hp.
    destruct bars as [|b bars].
    + unfold DataFetch.parse_dates in Hp. simpl in Hp. by injection Hp as <-.
    + eapply parse_dates_pure in Hp.
      rewrite (fetch_data_parsed env _ _ _ _ _ _ _ _ Hc Hp) in H.
      injection H as H. rewrite <- H. apply sort_index_permutation.
  - split; [constructor|]. intros bars parsed Hc Hp.
    destruct bars as [|b bars].
    + unfold DataFetch.parse_dates in Hp. simpl in Hp. by injection Hp as <-.
    + eapply parse_dates_pure in Hp.
      rewrite (fetch_data_parsed env _ _ _ _ _ _ _ _ Hc Hp) in H.
      injection H as H _. rewrite <- H. apply sort_index_permutation.
  - split; [apply sort_index_sorted|]. intros bars' parsed Hc' Hp'.
    assert (bars' = bars) as -> by congruence.
    eapply (parse_dates_pure _ _ _ (called _ w)) in Hp'. rewrite Hp in Hp'.
    injection Hp' as <-. apply sort_index_permutation.
Qed.

Lemma fetch_data_sorted_by_date_witness :
  StronglySorted DataFetch.date_le
    [bar "2024-03-01" 10; bar "2024-03-04" 11; bar "2024-03-05" 12]
  ∧ (∀ bars parsed,
       client env_three_bars
         (DataFetch.request_of env_three_bars "AAPL" "2024-03-01" None "daily")
       = Prices bars →
       DataFetch.parse_dates env_three_bars bars world_aapl_2020
       = (Ok parsed, world_aapl_2020) →
       [bar "2024-03-01" 10; bar "2024-03-04" 11; bar "2024-03-05" 12] ≡ₚ parsed).
Proof.
  apply (fetch_data_sorted_by_date env_three_bars "AAPL" "2024-03-01" None "daily"
           world_aapl_2020
           (called (DataFetch.request_of env_three_bars "AAPL" "2024-03-01" None "daily")
              world_aapl_2020)).
  reflexivity.
Defined.

Lemma fetch_data_one_request_aux env ticker start_date end_date freq w :
  ∃ df w', DataFetch.fetch_data env ticker start_date end_date freq w = (Ok df, w')
    ∧ requests w'
      = requests w ++ [DataFetch.request_of env ticker start_date end_date freq]
    ∧ tables w' = tables w.
Proof.
  destruct (fetch_data_paths env ticker start_date end_date freq w)
    as [H|[[line H]|(bars & df' & Hc & Hne & Hp & H)]];
    rewrite H; eexists _, _; (split; [reflexivity|]); simpl; eauto.
Qed.

(** X3.  One call of [fetch_data] is one request to the service, for the
    given ticker, start and frequency and up to the given end date or
    today; it never writes to the store, and it prints (one line) only
    when it returns the empty frame. *)
Theorem fetch_data_one_request
    (env : Env) (ticker start_date : string) (end_date : option string)
    (freq : string) (w : World) :
  ∃ df w', DataFetch.fetch_data env ticker start_date end_date freq w = (Ok df, w')
    ∧ requests w'
      = requests w ++ [ {| req_ticker := ticker; req_start := start_date;
                           req_end := default (today env) end_date;
                           req_freq := freq |} ]
    ∧ tables w' = tables w
    ∧ (stdout w' = stdout w ∨ (df = [] ∧ ∃ line, stdout w' = stdout w ++ [line])).
Proof.
  destruct (fetch_data_paths env ticker start_date end_date freq w)
    as [H|[[line H]|(bars & df' & Hc & Hne & Hp & H)]];
    rewrite H; eexists _, _; (split; [reflexivity|]); simpl; eauto 10.
Qed.

(** X5.  One bar with a date that does not parse spoils the whole answer:
    [fetch_data] returns the empty frame, with one diagnostic line, and
    none of the other bars. *)
Theorem fetch_data_unparsable_date
    (env : Env) (ticker start_date : string) (end_date : option string)
    (freq : string) (w : World) (bars : list Row) (r : Row) :
  client env (DataFetch.request_of env ticker start_date end_date freq) = Prices bars →
  r ∈ bars → to_datetime env (date r) = None →
  ∃ line, DataFetch.fetch_data env ticker start_date end_date freq w
          = (Ok [], printed line
                      (called (DataFetch.request_of env ticker start_date end_date freq)
                         w)).
Proof.
  intros Hc Hr Hnone. destruct bars as [|b bars]; [by apply elem_of_nil in Hr|].
  eapply fetch_data_unparsed; [done|]. by eapply parse_dates_unparsable.
Qed.

Lemma fetch_data_unparsable_date_witness :
  ∃ line, DataFetch.fetch_data env_bad_date "AAPL" "2024-03-01" None "daily"
            world_aapl_2020
          = (Ok [], printed line
                      (called (DataFetch.request_of env_bad_date "AAPL" "2024-03-01"
                                 None "daily") world_aapl_2020)).
Proof.
  apply (fetch_data_unparsable_date env_bad_date "AAPL" "2024-03-01" None "daily"
           world_aapl_2020 [bar "2024-03-01" 10; bar "yesterday" 11]
           (bar "yesterday" 11)).
  - reflexivity.
  - apply list_elem_of_further, list_elem_of_here.
  - reflexivity.
Defined.

Lemma contains_occurs needle haystack :
  needle ≠ "" →
  contains needle haystack = true
  ↔ ∃ m, String.substring m (String.length needle) haystack = needle.
Proof.
  intros Hne. unfold contains. rewrite bool_decide_eq_true. split.
  - intros [m Hm]. exists m. by eapply String.index_correct1.
  - intros [m Hm]. destruct (String.index 0 needle haystack) eqn:E; [eauto|].
    exfalso. eapply (String.index_correct3 0 m); [done..|lia|done].
Qed.

(** X4.  The diagnostic of a failed request is chosen by the text of the
    failure: the quota line when the text has [API limit reached]
    somewhere in it, else the credential line when it has [Invalid token],
    else a line that names the ticker and repeats the text. *)
Theorem fetch_data_diagnostic
    (env : Env) (ticker start_date : string) (end_date : option string)
    (freq : string) (w : World) (msg : string) :
  client env (DataFetch.request_of env ticker start_date end_date freq) = Failure msg →
  ∃ line,
    DataFetch.fetch_data env ticker start_date end_date freq w
    = (Ok [], printed line
                (called (DataFetch.request_of env ticker start_date end_date freq) w))
    ∧ ((∃ m, String.substring m 17 msg = "API limit reached") →
       line = "Tiingo API limit reached - try again later or upgrade your plan")
    ∧ ((∀ m, String.substring m 17 msg ≠ "API limit reached") →
       (∃ m, String.substring m 13 msg = "Invalid token") →
       line = "Invalid API token - check your .env file")
    ∧ ((∀ m, String.substring m 17 msg ≠ "API limit reached") →
       (∀ m, String.substring m 13 msg ≠ "Invalid token") →
       line = "Error fetching data for " +:+ ticker +:+ ": " +:+ msg).
Proof.
  intros Hc.
  assert (Hq : contains "API limit reached" msg = true
               ↔ ∃ m, String.substring m 17 msg = "API limit reached")
    by by apply contains_occurs.
  assert (Ht : contains "Invalid token" msg = true
               ↔ ∃ m, String.substring m 13 msg = "Invalid token")
    by by apply contains_occurs.
  rewrite fetch_data_start. unfold try_except.
  rewrite run_bind. unfold DataFetch.get_ticker_price. rewrite Hc.
  cbn [str].
  destruct (contains "API limit reached" msg) eqn:E1;
    [|destruct (contains "Invalid token" msg) eqn:E2];
    (eexists; split; [reflexivity|]).
  - split; [done|]. split; intros Hno; exfalso;
      destruct (proj1 Hq eq_refl) as [m Hm]; by eapply Hno.
  - split; [|split; [done|]].
    + intros Hocc. apply Hq in Hocc. congruence.
    + intros _ Hno. exfalso. destruct (proj1 Ht eq_refl) as [m Hm]. by eapply Hno.
  - split; [|split; [|done]].
    + intros Hocc. apply Hq in Hocc. congruence.
    + intros _ Hocc. apply Ht in Hocc. congruence.
Qed.

Lemma fetch_data_diagnostic_witness :
  ∃ line,
    DataFetch.fetch_data env_rate_limited "AAPL" "2024-01-01" None "daily" world_aapl_2020
    = (Ok [], printed line
                (called (DataFetch.request_of env_rate_limited "AAPL" "2024-01-01" None
                           "daily") world_aapl_2020))
    ∧ ((∃ m, String.substring m 17 "API limit reached" = "API limit reached") →
       line = "Tiingo API limit reached - try again later or upgrade your plan")
    ∧ ((∀ m, String.substring m 17 "API limit reached" ≠ "API limit reached") →
       (∃ m, String.substring m 13 "API limit reached" = "Invalid token") →
       line = "Invalid API token - check your .env file")
    ∧ ((∀ m, String.substring m 17 "API limit reached" ≠ "API limit reached") →
       (∀ m, String.substring m 13 "API limit reached" ≠ "Invalid token") →
       line = "Error fetching data for " +:+ "AAPL" +:+ ": " +:+ "API limit reached").
Proof.
  apply (fetch_data_diagnostic env_rate_limited "AAPL" "2024-01-01" None "daily"
           world_aapl_2020 "API limit reached").
  reflexivity.
Defined.

(** ** The coordinator off the cache *)

Section Miss.
Import Main.
Context (env : Env).

(** No usable cache: no table, caching disabled, or a readable table
    without a stored row within the requested bounds. *)
Lemma resolve_miss ticker params w :
  (tables w !! ticker = None
   ∨ (cache_days params ≤ 0)%Z
   ∨ ∃ rows, tables w !! ticker = Some rows
       ∧ unquoted_name_error env ticker = None
       ∧ filter (λ r, Database.satisfies
                        (Database.date_conditions (Some (start_date params))
                                                  (end_date params)) r = true) rows = []) →
  _get_data_with_cache env ticker params w
  = (df ← DataFetch.fetch_data env ticker (start_date params) (end_date params)
            (freq params);
     (if negb (empty df)
      then
        Database.save_data df ticker Database.append;;
        if (0 <? cache_days params)%Z
        then Database.clean_old_data env ticker (cache_days params)
        else mret ()
      else mret ());;
     mret df) (printed ("Fetching new data for " +:+ ticker +:+ "...") w).
Proof.
  intros Hmiss. unfold _get_data_with_cache.
  rewrite run_bind, table_exists_run.
  destruct (tables w !! ticker) as [rows|] eqn:Ht.
  - rewrite bool_decide_true by eauto.
    destruct (Z.ltb_spec 0 (cache_days params)) as [Hpos|Hle]; simpl.
    + destruct Hmiss as [?|[?|(rows' & Hr & Hn & Hnil)]]; [done|lia|].
      assert (rows' = rows) as -> by congruence.
      rewrite !run_bind, (load_data_known _ _ _ _ _ _ Hn Ht), Hnil. reflexivity.
    + reflexivity.
  - rewrite bool_decide_false by (by intros [? [=]]). reflexivity.
Qed.

(** What the miss path does once the fetch has returned [df]. *)
Lemma resolve_after_fetch ticker params w df w1 :
  DataFetch.fetch_data env ticker (start_date params) (end_date params) (freq params)
    (printed ("Fetching new data for " +:+ ticker +:+ "...") w) = (Ok df, w1) →
  (df ← DataFetch.fetch_data env ticker (start_date params) (end_date params)
          (freq params);
   (if negb (empty df)
    then
      Database.save_data df ticker Database.append;;
      if (0 <? cache_days params)%Z
      then Database.clean_old_data env ticker (cache_days params)
      else mret ()
    else mret ());;
   mret df) (printed ("Fetching new data for " +:+ ticker +:+ "...") w)
  = match df with
    | [] => (Ok [], w1)
    | _ :: _ =>
        let w2 := {| tables := <[ticker := default [] (tables w1 !! ticker)
                                           ++ (Database.to_sql_row <$> df)]>
                                 (tables w1);
                     stdout := stdout w1; requests := requests w1 |} in
        if (0 <? cache_days params)%Z then (Raise (NameError "datetime"), w2)
        else (Ok df, w2)
    end.
Proof.
  intros Hf. rewrite run_bind, Hf. destruct df as [|r df]; [done|].
  cbn [empty negb]. rewrite !run_bind, save_data_append_run.
  destruct (Z.ltb_spec 0 (cache_days params)) as [Hpos|Hle].
  - by rewrite clean_old_data_positive.
  - done.
Qed.

(** Every way a call of the coordinator can go. *)
Lemma resolve_cases ticker params w :
  let P := λ r, Database.satisfies
                  (Database.date_conditions (Some (start_date params))
                                            (end_date params)) r = true in
  (∃ rows, tables w !! ticker = Some rows ∧ (0 < cache_days params)%Z
           ∧ unquoted_name_error env ticker = None ∧ filter P rows ≠ [])
  ∨ (∃ rows msg, tables w !! ticker = Some rows ∧ (0 < cache_days params)%Z
                 ∧ unquoted_name_error env ticker = Some msg)
  ∨ (tables w !! ticker = None ∨ (cache_days params ≤ 0)%Z
     ∨ ∃ rows, tables w !! ticker = Some rows
         ∧ unquoted_name_error env ticker = None ∧ filter P rows = []).
Proof.
  intros P. destruct (tables w !! ticker) as [rows|]; [|auto].
  destruct (Z.ltb_spec 0 (cache_days params)); [|auto].
  destruct (unquoted_name_error env ticker) as [msg|] eqn:Hn; [eauto 10|].
  destruct (filter P rows) eqn:E; [right; right; right; right; eauto|].
  left. exists rows. rewrite E. done.
Qed.

End Miss.

(** X6.  With [cache_days <= 0] the stored rows are never loaded: whatever
    the store holds and whatever the name of the ticker, the call prints
    its [Fetching new data] line, runs [fetch_data] once and returns
    exactly the frame that [fetch_data] returned, without raising.  A
    non-empty answer is appended, as stored text, to the table of the
    ticker, after whatever it held; an empty answer leaves the world as
    [fetch_data] left it. *)
Theorem resolve_without_retention
    (env : Env) (ticker : string) (params : Main.Params) (w : World) :
  (Main.cache_days params ≤ 0)%Z →
  ∃ df w1,
    DataFetch.fetch_data env ticker (Main.start_date params) (Main.end_date params)
      (Main.freq params) (printed ("Fetching new data for " +:+ ticker +:+ "...") w)
    = (Ok df, w1)
    ∧ Main._get_data_with_cache env ticker params w
      = (Ok df,
         match df with
         | [] => w1
         | _ :: _ =>
             {| tables := <[ticker := default [] (tables w !! ticker)
                                      ++ (Database.to_sql_row <$> df)]> (tables w);
                stdout := stdout w1; requests := requests w1 |}
         end)
    ∧ requests w1
      = requests w ++ [DataFetch.request_of env ticker (Main.start_date params)
                         (Main.end_date params) (Main.freq params)]
    ∧ tables w1 = tables w.
Proof.
  intros Hle. rewrite resolve_miss by auto.
  destruct (fetch_data_one_request_aux env ticker (Main.start_date params)
              (Main.end_date params) (Main.freq params)
              (printed ("Fetching new data for " +:+ ticker +:+ "...") w))
    as (df & w1 & Hf & Hreq & Htab).
  rewrite (resolve_after_fetch env _ _ _ _ _ Hf).
  destruct (Z.ltb_spec 0 (Main.cache_days params)) as [|_]; [lia|].
  exists df, w1. split; [done|]. simpl in Hreq, Htab.
  split; [|done]. destruct df as [|r df]; [done|]. simpl. by rewrite Htab.
Qed.

Lemma resolve_without_retention_witness :
  ∃ df w1,
    DataFetch.fetch_data env_three_bars "AAPL" "2024-03-01" (Some "2024-03-31") "daily"
      (printed "Fetching new data for AAPL..." world_aapl_2020)
    = (Ok df, w1)
    ∧ Main._get_data_with_cache env_three_bars "AAPL" (params_march 0) world_aapl_2020
      = (Ok df,
         match df with
         | [] => w1
         | _ :: _ =>
             {| tables := <["AAPL" := default [] (tables world_aapl_2020 !! "AAPL")
                                      ++ (Database.to_sql_row <$> df)]>
                            (tables world_aapl_2020);
                stdout := stdout w1; requests := requests w1 |}
         end)
    ∧ requests w1
      = requests world_aapl_2020
        ++ [DataFetch.request_of env_three_bars "AAPL" "2024-03-01"
              (Some "2024-03-31") "daily"]
    ∧ tables w1 = tables world_aapl_2020.
Proof.
  apply (resolve_without_retention env_three_bars "AAPL" (params_march 0) world_aapl_2020).
  simpl. lia.
Defined.

(** X7.  With [cache_days > 0], a call that finds nothing usable in the
    store (no table, or a table the engine can read that has no row within
    the bounds) and fetches a non-empty answer appends the answer to the
    table of the ticker and then ends in the [NameError] of the pruning
    step: the caller gets the exception, not the rows, although they are
    stored. *)
Theorem resolve_first_fetch_raises
    (env : Env) (ticker : string) (params : Main.Params) (w w1 : World)
    (df : list Row) :
  (0 < Main.cache_days params)%Z →
  (tables w !! ticker = None
   ∨ ∃ rows, tables w !! ticker = Some rows
       ∧ unquoted_name_error env ticker = None
       ∧ filter (λ r, Database.satisfies
                        (Database.date_conditions (Some (Main.start_date params))
                                                  (Main.end_date params)) r = true)
           rows = []) →
  DataFetch.fetch_data env ticker (Main.start_date params) (Main.end_date params)
    (Main.freq params) (printed ("Fetching new data for " +:+ ticker +:+ "...") w)
  = (Ok df, w1) →
  df ≠ [] →
  ∃ w', Main._get_data_with_cache env ticker params w = (Raise (NameError "datetime"), w')
    ∧ tables w' = <[ticker := default [] (tables w !! ticker)
                              ++ (Database.to_sql_row <$> df)]> (tables w).
Proof.
  intros Hpos Hmiss Hf Hne.
  rewrite resolve_miss by (destruct Hmiss; auto).
  rewrite (resolve_after_fetch env _ _ _ _ _ Hf).
  destruct (fetch_data_one_request_aux env ticker (Main.start_date params)
              (Main.end_date params) (Main.freq params)
              (printed ("Fetching new data for " +:+ ticker +:+ "...") w))
    as (df' & w1' & Hf' & _ & Htab).
  rewrite Hf in Hf'. injection Hf' as <- <-. simpl in Htab.
  destruct df as [|r df]; [done|].
  destruct (Z.ltb_spec 0 (Main.cache_days params)) as [_|]; [|lia].
  eexists. split; [reflexivity|]. simpl. by rewrite Htab.
Qed.

Lemma resolve_first_fetch_raises_witness :
  ∃ w', Main._get_data_with_cache env_three_bars "AAPL" (params_march 30) (world_of ∅)
        = (Raise (NameError "datetime"), w')
    ∧ tables w'
      = <["AAPL" := default [] (tables (world_of ∅) !! "AAPL")
                    ++ (Database.to_sql_row
                          <$> [bar "2024-03-01" 10; bar "2024-03-04" 11;
                               bar "2024-03-05" 12])]>
          (tables (world_of ∅)).
Proof.
  eapply (resolve_first_fetch_raises env_three_bars "AAPL" (params_march 30) (world_of ∅)).
  - simpl. lia.
  - left. reflexivity.
  - reflexivity.
  - discriminate.
Defined.

(** X8.  When nothing usable is in the store (no table, caching disabled,
    or a table the engine can read that has no row within the bounds) and
    the fetch comes back empty (no data, or a failure absorbed by
    [fetch_data]), the coordinator returns the empty frame: it does not
    raise and leaves every table as it was. *)
Theorem resolve_empty_answer
    (env : Env) (ticker : string) (params : Main.Params) (w w1 : World) :
  (tables w !! ticker = None
   ∨ (Main.cache_days params ≤ 0)%Z
   ∨ ∃ rows, tables w !! ticker = Some rows
       ∧ unquoted_name_error env ticker = None
       ∧ filter (λ r, Database.satisfies
                        (Database.date_conditions (Some (Main.start_date params))
                                                  (Main.end_date params)) r = true)
           rows = []) →
  DataFetch.fetch_data env ticker (Main.start_date params) (Main.end_date params)
    (Main.freq params) (printed ("Fetching new data for " +:+ ticker +:+ "...") w)
  = (Ok [], w1) →
  Main._get_data_with_cache env ticker params w = (Ok [], w1)
  ∧ tables w1 = tables w.
Proof.
  intros Hmiss Hf. rewrite (resolve_miss env _ _ _ Hmiss).
  rewrite (resolve_after_fetch env _ _ _ _ _ Hf). split; [done|].
  destruct (fetch_data_one_request_aux env ticker (Main.start_date params)
              (Main.end_date params) (Main.freq params)
              (printed ("Fetching new data for " +:+ ticker +:+ "...") w))
    as (df' & w1' & Hf' & _ & Htab).
  rewrite Hf in Hf'. by injection Hf' as <- <-.
Qed.

Lemma resolve_empty_answer_witness :
  ∃ w1,
    Main._get_data_with_cache env_rate_limited "AAPL" params_2021 world_aapl_2020
    = (Ok [], w1)
    ∧ tables w1 = tables world_aapl_2020.
Proof.
  eexists.
  eapply (resolve_empty_answer env_rate_limited "AAPL" params_2021 world_aapl_2020).
  - right. right. eexists. split; [reflexivity|]. split; reflexivity.
  - reflexivity.
Defined.

(** X9.  What a first call stored is what the next call serves, as far as
    the bounds of the query let it.  Starting without a table for a ticker
    whose name the engine can read, and with [cache_days > 0], the first
    call stores the rows it fetched (and raises, see X7).  If the stored
    text of every fetched row lies within the requested bounds, a second
    call with the same parameters returns exactly the fetched rows from
    the store, without a new request.  If instead every fetched row is of
    the day that is the upper bound, none of them passes the bound: the
    second call finds nothing to serve and goes to the remote service
    again. *)
Theorem resolve_second_call_hits
    (env : Env) (ticker : string) (params : Main.Params) (w w1 : World)
    (df : list Row) :
  unquoted_name_error env ticker = None →
  tables w !! ticker = None →
  (0 < Main.cache_days params)%Z →
  DataFetch.fetch_data env ticker (Main.start_date params) (Main.end_date params)
    (Main.freq params) (printed ("Fetching new data for " +:+ ticker +:+ "...") w)
  = (Ok df, w1) →
  df ≠ [] →
  ∃ w2,
    Main._get_data_with_cache env ticker params w = (Raise (NameError "datetime"), w2)
    ∧ tables w2 !! ticker = Some (Database.to_sql_row <$> df)
    ∧ (Forall (λ r, Database.satisfies
                      (Database.date_conditions (Some (Main.start_date params))
                                                (Main.end_date params))
                      (Database.to_sql_row r) = true) df →
       ∃ w3, Main._get_data_with_cache env ticker params w2 = (Ok df, w3)
             ∧ requests w3 = requests w2 ∧ tables w3 = tables w2)
    ∧ (∀ day, Main.end_date params = Some day → day ≠ "" →
         Forall (λ r, date r = day) df →
         ∃ out w3, Main._get_data_with_cache env ticker params w2 = (out, w3)
           ∧ requests w3
             = requests w2 ++ [DataFetch.request_of env ticker (Main.start_date params)
                                 (Main.end_date params) (Main.freq params)]).
Proof.
  intros Hn Hnone Hpos Hf Hne.
  rewrite resolve_miss by auto.
  rewrite (resolve_after_fetch env _ _ _ _ _ Hf).
  destruct (fetch_data_one_request_aux env ticker (Main.start_date params)
              (Main.end_date params) (Main.freq params)
              (printed ("Fetching new data for " +:+ ticker +:+ "...") w))
    as (df' & w1' & Hf' & _ & Htab).
  rewrite Hf in Hf'. injection Hf' as <- <-. simpl in Htab.
  destruct df as [|r df]; [done|].
  destruct (Z.ltb_spec 0 (Main.cache_days params)) as [_|]; [|lia].
  eexists. split; [reflexivity|].
  assert (Hstored :
    <[ticker := default [] (tables w1 !! ticker) ++ (Database.to_sql_row <$> r :: df)]>
      (tables w1) !! ticker = Some (Database.to_sql_row <$> r :: df)).
  { by rewrite lookup_insert_eq, Htab, Hnone. }
  split; [exact Hstored|]. split.
  - intros Hall.
    rewrite (resolve_hit env ticker params _ (Database.to_sql_row <$> r :: df));
      [|done|exact Hstored|done|].
    + rewrite filter_all by by apply Forall_fmap.
      rewrite of_sql_rows_to_sql_rows. eexists. split; [reflexivity|]. done.
    + by rewrite filter_all by by apply Forall_fmap.
  - intros day He Hday Hall.
    set (w2 := {| tables := _; stdout := _; requests := _ |}).
    rewrite (resolve_miss env ticker params w2).
    + destruct (fetch_data_one_request_aux env ticker (Main.start_date params)
                  (Main.end_date params) (Main.freq params)
                  (printed ("Fetching new data for " +:+ ticker +:+ "...") w2))
        as (df2 & w3 & Hf2 & Hreq2 & _).
      rewrite (resolve_after_fetch env _ _ _ _ _ Hf2). simpl in Hreq2.
      destruct df2 as [|r2 df2]; [|destruct (0 <? Main.cache_days params)%Z];
        eexists _, _; (split; [reflexivity|]); exact Hreq2.
    + right. right. eexists. split; [exact Hstored|]. split; [done|].
      apply filter_none, Forall_fmap. eapply Forall_impl; [exact Hall|].
      intros r' Hr'. simpl. rewrite He.
      rewrite (end_day_not_selected _ day); [done|done|]. by rewrite <- Hr'.
Qed.

Lemma resolve_second_call_hits_witness :
  ∃ w2,
    Main._get_data_with_cache env_three_bars "AAPL" (params_march 30) (world_of ∅)
    = (Raise (NameError "datetime"), w2)
    ∧ tables w2 !! "AAPL"
      = Some (Database.to_sql_row
                <$> [bar "2024-03-01" 10; bar "2024-03-04" 11; bar "2024-03-05" 12])
    ∧ (Forall (λ r, Database.satisfies
                      (Database.date_conditions (Some "2024-03-01") (Some "2024-03-31"))
                      (Database.to_sql_row r) = true)
         [bar "2024-03-01" 10; bar "2024-03-04" 11; bar "2024-03-05" 12] →
       ∃ w3, Main._get_data_with_cache env_three_bars "AAPL" (params_march 30) w2
             = (Ok [bar "2024-03-01" 10; bar "2024-03-04" 11; bar "2024-03-05" 12], w3)
             ∧ requests w3 = requests w2 ∧ tables w3 = tables w2)
    ∧ (∀ day, Some "2024-03-31" = Some day → day ≠ "" →
         Forall (λ r, date r = day)
           [bar "2024-03-01" 10; bar "2024-03-04" 11; bar "2024-03-05" 12] →
         ∃ out w3, Main._get_data_with_cache env_three_bars "AAPL" (params_march 30) w2
                   = (out, w3)
           ∧ requests w3
             = requests w2 ++ [DataFetch.request_of env_three_bars "AAPL" "2024-03-01"
                                 (Some "2024-03-31") "daily"]).
Proof.
  eapply (resolve_second_call_hits env_three_bars "AAPL" (params_march 30) (world_of ∅)).
  - reflexivity.
  - reflexivity.
  - simpl. lia.
  - reflexivity.
  - discriminate.
Defined.

(** The range that ends on 2024-03-05: the first call stores the three
    bars, the second serves the two of them that lie before the end day. *)
Lemma second_call_drops_end_day :
  let run1 := Main._get_data_with_cache env_three_bars "AAPL" (params_first_days 30)
                (world_of ∅) in
  let run2 := Main._get_data_with_cache env_three_bars "AAPL" (params_first_days 30)
                run1.2 in
  run1.1 = Raise (NameError "datetime")
  ∧ tables run1.2 !! "AAPL"
    = Some [stored "2024-03-01" 10; stored "2024-03-04" 11; stored "2024-03-05" 12]
  ∧ run2.1 = Ok [bar "2024-03-01" 10; bar "2024-03-04" 11]
  ∧ requests run2.2 = requests run1.2.
Proof. repeat split; reflexivity. Qed.

(** X20.  A ticker whose name the engine does not read as its table (a
    reserved word, a name with a dash or a dot) can be fetched and stored
    once; after that, with [cache_days > 0], every call for it raises the
    error of the engine before anything is fetched, and changes nothing:
    the ticker is served neither from the store nor from the service. *)
Theorem resolve_unreadable_name
    (env : Env) (ticker : string) (params : Main.Params) (msg : string) :
  unquoted_name_error env ticker = Some msg →
  (0 < Main.cache_days params)%Z →
  (∀ w rows, tables w !! ticker = Some rows →
     Main._get_data_with_cache env ticker params w = (Raise (OperationalError msg), w))
  ∧ (∀ w w1 df,
       tables w !! ticker = None →
       DataFetch.fetch_data env ticker (Main.start_date params) (Main.end_date params)
         (Main.freq params) (printed ("Fetching new data for " +:+ ticker +:+ "...") w)
       = (Ok df, w1) →
       df ≠ [] →
       ∃ w2, Main._get_data_with_cache env ticker params w
             = (Raise (NameError "datetime"), w2)
         ∧ tables w2 !! ticker = Some (Database.to_sql_row <$> df)
         ∧ Main._get_data_with_cache env ticker params w2
           = (Raise (OperationalError msg), w2)).
Proof.
  intros Hn Hpos. split.
  - intros w rows Ht. by eapply resolve_unreadable.
  - intros w w1 df Hnone Hf Hne.
    rewrite resolve_miss by auto.
    rewrite (resolve_after_fetch env _ _ _ _ _ Hf).
    destruct (fetch_data_one_request_aux env ticker (Main.start_date params)
                (Main.end_date params) (Main.freq params)
                (printed ("Fetching new data for " +:+ ticker +:+ "...") w))
      as (df' & w1' & Hf' & _ & Htab).
    rewrite Hf in Hf'. injection Hf' as <- <-. simpl in Htab.
    destruct df as [|r df]; [done|].
    destruct (Z.ltb_spec 0 (Main.cache_days params)) as [_|]; [|lia].
    eexists. split; [reflexivity|].
    assert (Hstored :
      <[ticker := default [] (tables w1 !! ticker) ++ (Database.to_sql_row <$> r :: df)]>
        (tables w1) !! ticker = Some (Database.to_sql_row <$> r :: df)).
    { by rewrite lookup_insert_eq, Htab, Hnone. }
    split; [exact Hstored|]. by eapply resolve_unreadable.
Qed.

Lemma resolve_unreadable_name_witness :
  (∀ w rows, tables w !! "ALL" = Some rows →
     Main._get_data_with_cache env_three_bars "ALL" (params_march 30) w
     = (Raise (OperationalError (default "" (sqlite_unquoted "ALL"))), w))
  ∧ (∀ w w1 df,
       tables w !! "ALL" = None →
       DataFetch.fetch_data env_three_bars "ALL" "2024-03-01" (Some "2024-03-31") "daily"
         (printed "Fetching new data for ALL..." w)
       = (Ok df, w1) →
       df ≠ [] →
       ∃ w2, Main._get_data_with_cache env_three_bars "ALL" (params_march 30) w
             = (Raise (NameError "datetime"), w2)
         ∧ tables w2 !! "ALL" = Some (Database.to_sql_row <$> df)
         ∧ Main._get_data_with_cache env_three_bars "ALL" (params_march 30) w2
           = (Raise (OperationalError (default "" (sqlite_unquoted "ALL"))), w2)).
Proof.
  apply (resolve_unreadable_name env_three_bars "ALL" (params_march 30)).
  - reflexivity.
  - simpl. lia.
Defined.

(** ** The loop of [run] *)

Section Loop.
Import Main Pipeline.
Context (env : Env).

(** The coordinator only ever adds lines to the terminal. *)
Lemma resolve_keeps_stdout ticker params w :
  stdout w `prefix_of` stdout (_get_data_with_cache env ticker params w).2.
Proof.
  destruct (resolve_cases env ticker params w)
    as [(rows & Ht & Hpos & Hn & Hne)|[(rows & msg & Ht & Hpos & Hn)|Hmiss]].
  - rewrite (resolve_hit env _ _ _ _ Hn Ht Hpos Hne). simpl. by apply prefix_app_r.
  - by rewrite (resolve_unreadable env _ _ _ _ _ Hn Ht Hpos).
  - rewrite (resolve_miss env _ _ _ Hmiss).
    destruct (fetch_data_paths env ticker (start_date params) (end_date params)
                (freq params)
                (printed ("Fetching new data for " +:+ ticker +:+ "...") w))
      as [H|[[line H]|(bars & df' & Hc & Hnb & Hp & H)]];
      rewrite (resolve_after_fetch env _ _ _ _ _ H).
    + simpl. by apply prefix_app_r.
    + simpl. by do 2 apply prefix_app_r.
    + destruct (DataFetch.sort_index df'); [simpl; by apply prefix_app_r|].
      destruct (0 <? cache_days params)%Z; simpl; by apply prefix_app_r.
Qed.

Context (report : string → list Row → M unit).

(** One ticker: what the body of the loop leaves behind, by the way the
    coordinator and the report end. *)
Lemma process_ticker_outcome ticker params w :
  process_ticker env report ticker params w
  = match _get_data_with_cache env ticker params
            (printed ("Processing " +:+ ticker +:+ "...") (printed rule w)) with
    | (Raise e, w1) =>
        (Ok (), printed ("Error processing " +:+ ticker +:+ ": " +:+ str e) w1)
    | (Ok [], w1) => (Ok (), printed ("No data available for " +:+ ticker) w1)
    | (Ok (r :: df), w1) =>
        match report ticker (r :: df) w1 with
        | (Ok _, w2) => (Ok (), w2)
        | (Raise e, w2) =>
            (Ok (), printed ("Error processing " +:+ ticker +:+ ": " +:+ str e) w2)
        end
    end.
Proof.
  unfold process_ticker, try_except.
  rewrite run_bind, print_run. cbv beta iota.
  rewrite run_bind, print_run. cbv beta iota.
  rewrite run_bind.
  destruct (_get_data_with_cache env ticker params _) as [[[|r df]|e] w1];
    [reflexivity| |reflexivity].
  cbn [empty]. by destruct (report ticker (r :: df) w1) as [[[]|e] w2].
Qed.

(** One ticker: the body of the loop always ends normally, whatever the
    coordinator and the report do. *)
Lemma process_ticker_ends ticker params w :
  ∃ w', process_ticker env report ticker params w = (Ok (), w')
    ∧ ((∀ t df w0, stdout w0 `prefix_of` stdout (report t df w0).2) →
       stdout w ++ [rule; "Processing " +:+ ticker +:+ "..."] `prefix_of` stdout w').
Proof.
  rewrite process_ticker_outcome.
  set (w0 := printed ("Processing " +:+ ticker +:+ "...") (printed rule w)).
  assert (H0 : stdout w0 = stdout w ++ [rule; "Processing " +:+ ticker +:+ "..."]).
  { simpl. by rewrite <- app_assoc. }
  pose proof (resolve_keeps_stdout ticker params w0) as Hres.
  destruct (_get_data_with_cache env ticker params w0) as [[df|e] w1]; simpl in Hres.
  - destruct df as [|r df]; simpl.
    + eexists. split; [reflexivity|]. intros _. simpl. rewrite <- H0.
      by apply prefix_app_r.
    + pose proof (λ H : ∀ t df w0, stdout w0 `prefix_of` stdout (report t df w0).2,
                    H ticker (r :: df) w1) as Hrep.
      destruct (report ticker (r :: df) w1) as [[[]|e] w2]; simpl in Hrep.
      * eexists. split; [reflexivity|]. intros Hm. rewrite <- H0.
        etrans; [exact Hres | by apply Hrep].
      * eexists. split; [reflexivity|]. intros Hm. simpl. rewrite <- H0.
        apply prefix_app_r. etrans; [exact Hres | by apply Hrep].
  - eexists. split; [reflexivity|]. intros _. simpl. rewrite <- H0.
    by apply prefix_app_r.
Qed.

End Loop.

(** X10.  The loop of [run] isolates the tickers.  For one ticker, after
    the rule and the [Processing] line: when the coordinator raises, the
    line [Error processing <ticker>: <text of the exception>] is printed
    and the body ends normally; when it returns the empty frame, the line
    [No data available for <ticker>] is printed and the report is not run;
    otherwise the report runs, and if it raises the same error line is
    printed.  So the loop itself never raises and goes on to the next
    ticker from the world the last one left; and, when the report only
    adds to the terminal, every ticker of the list is attempted, whatever
    happened to those before it. *)
Theorem run_loop_isolates_tickers
    (env : Env) (report : string → list Row → M unit)
    (tickers : list string) (params : Main.Params) (w : World) :
  (∃ w', Pipeline.run_tickers env report tickers params w = (Ok (), w')
     ∧ ((∀ t df w0, stdout w0 `prefix_of` stdout (report t df w0).2) →
        stdout w `prefix_of` stdout w'
        ∧ ∀ t, t ∈ tickers → ("Processing " +:+ t +:+ "...") ∈ stdout w'))
  ∧ (∀ ticker w0,
       Pipeline.process_ticker env report ticker params w0
       = match Main._get_data_with_cache env ticker params
                 (printed ("Processing " +:+ ticker +:+ "...")
                    (printed Pipeline.rule w0)) with
         | (Raise e, w1) =>
             (Ok (), printed ("Error processing " +:+ ticker +:+ ": " +:+ str e) w1)
         | (Ok [], w1) => (Ok (), printed ("No data available for " +:+ ticker) w1)
         | (Ok (r :: df), w1) =>
             match report ticker (r :: df) w1 with
             | (Ok _, w2) => (Ok (), w2)
             | (Raise e, w2) =>
                 (Ok (), printed ("Error processing " +:+ ticker +:+ ": " +:+ str e) w2)
             end
         end)
  ∧ (∀ ticker rest w0,
       Pipeline.run_tickers env report (ticker :: rest) params w0
       = Pipeline.run_tickers env report rest params
           (Pipeline.process_ticker env report ticker params w0).2).
Proof.
  split; [|split].
  - revert w. induction tickers as [|ticker rest IH]; intros w.
    + exists w. split; [done|]. intros _. split; [done|]. intros t Ht.
      by apply elem_of_nil in Ht.
    + destruct (process_ticker_ends env report ticker params w) as (w1 & H1 & Hm1).
      destruct (IH w1) as (w' & H' & Hm').
      exists w'. split.
      { cbn [Pipeline.run_tickers]. by rewrite run_bind, H1. }
      intros Hm. specialize (Hm1 Hm). destruct (Hm' Hm) as [Hpre Hall].
      split.
      * etrans; [|exact Hpre]. etrans; [|exact Hm1]. by apply prefix_app_r.
      * intros t Ht. apply elem_of_cons in Ht as [->|Ht]; [|by apply Hall].
        eapply elem_of_prefix; [|exact Hpre].
        eapply elem_of_prefix; [|exact Hm1].
        apply elem_of_app. right. apply list_elem_of_further, list_elem_of_here.
  - intros ticker w0. apply process_ticker_outcome.
  - intros ticker rest w0.
    destruct (process_ticker_ends env report ticker params w0) as (w1 & H1 & _).
    cbn [Pipeline.run_tickers]. by rewrite run_bind, H1.
Qed.

Lemma run_loop_isolates_tickers_witness :
  ∃ w', Pipeline.run_tickers env_three_bars report_line ["AAPL"; "MSFT"]
          (params_march 30) (world_of ∅) = (Ok (), w')
    ∧ ((∀ t df w0, stdout w0 `prefix_of` stdout (report_line t df w0).2) →
       stdout (world_of ∅) `prefix_of` stdout w'
       ∧ ∀ t, t ∈ ["AAPL"; "MSFT"] → ("Processing " +:+ t +:+ "...") ∈ stdout w').
Proof.
  exact (proj1 (run_loop_isolates_tickers env_three_bars report_line ["AAPL"; "MSFT"]
                  (params_march 30) (world_of ∅))).
Defined.

(** The loop on two tickers whose first fetch ends in the [NameError] of
    the pruning step: both are attempted and both failures are printed. *)
Lemma run_loop_prints_errors :
  stdout (Pipeline.run_tickers env_three_bars report_line ["AAPL"; "MSFT"]
            (params_march 30) (world_of ∅)).2
  = [Pipeline.rule; "Processing AAPL..."; "Fetching new data for AAPL...";
     "Error processing AAPL: name 'datetime' is not defined";
     Pipeline.rule; "Processing MSFT..."; "Fetching new data for MSFT...";
     "Error processing MSFT: name 'datetime' is not defined"].
Proof. reflexivity. Qed.

(** ** Moving averages *)

Lemma ma_name_inj w1 w2 : ma_name w1 = ma_name w2 → w1 = w2.
Proof. unfold ma_name. intros [= H]. by apply (inj pretty). Qed.

Lemma setitem_keys (ma : list (string * Series)) name s :
  (setitem ma name s).*1 = if decide (name ∈ ma.*1) then ma.*1 else ma.*1 ++ [name].
Proof.
  induction ma as [|[n s'] ma IH].
  - simpl. destruct (decide (name ∈ [])) as [H|_]; [by apply elem_of_nil in H | done].
  - cbn [setitem]. destruct (String.eqb_spec n name) as [->|Hne].
    + rewrite decide_True by (rewrite fmap_cons; apply list_elem_of_here). done.
    + rewrite fmap_cons, IH. cbn [fst]. destruct (decide (name ∈ ma.*1)) as [Hin|Hnin].
      * rewrite decide_True by (rewrite fmap_cons; by apply list_elem_of_further). done.
      * rewrite decide_False; [done|]. rewrite fmap_cons. cbn [fst].
        intros H. apply elem_of_cons in H as [->|H]; done.
Qed.

Lemma setitem_NoDup (ma : list (string * Series)) name s :
  NoDup ma.*1 → NoDup (setitem ma name s).*1.
Proof.
  intros Hnd. rewrite setitem_keys. destruct (decide (name ∈ ma.*1)); [done|].
  apply NoDup_app. split; [done|]. split; [|apply NoDup_singleton].
  intros x Hx Hx'. apply list_elem_of_singleton in Hx' as ->. done.
Qed.

Lemma setitem_elem_of (ma : list (string * Series)) name s n' s' :
  NoDup ma.*1 →
  (n', s') ∈ setitem ma name s ↔ (n' = name ∧ s' = s) ∨ (n' ≠ name ∧ (n', s') ∈ ma).
Proof.
  induction ma as [|[n s0] ma IH]; simpl; intros Hnd.
  - rewrite list_elem_of_singleton. split.
    + intros [= -> ->]. by left.
    + intros [[-> ->]|[_ H]]; [done | by apply elem_of_nil in H].
  - apply NoDup_cons in Hnd as [Hn Hnd]. specialize (IH Hnd).
    destruct (String.eqb_spec n name) as [->|Hne].
    + rewrite !elem_of_cons. split.
      * intros [[= -> ->]|Hin]; [by left|]. right. split; [|by right].
        intros ->. apply Hn. apply list_elem_of_fmap. by exists (name, s').
      * intros [[-> ->]|[Hne [[= -> ->]|Hin]]]; [by left | done | by right].
    + rewrite !elem_of_cons, IH. split.
      * intros [[= -> ->]|[[-> ->]|[Hne' Hin]]]; [right; split; [done | by left] | by left |].
        right. split; [done | by right].
      * intros [[-> ->]|[Hne' [[= -> ->]|Hin]]]; [right; by left | by left |].
        right. right. done.
Qed.

(** The loop, from any columns set before it. *)
Lemma moving_averages_from_present (data : Frame) xs windows ma :
  data !! "adjClose" = Some xs →
  NoDup ma.*1 →
  ∃ ma', moving_averages_from ma data windows = Ok ma'
    ∧ NoDup ma'.*1
    ∧ (∀ n s, (n, s) ∈ ma' ↔
         (∃ w, w ∈ windows ∧ n = ma_name w ∧ s = rolling mean w (of_obs xs))
         ∨ ((n, s) ∈ ma ∧ ∀ w, w ∈ windows → n ≠ ma_name w))
    ∧ (NoDup windows → (∀ w, w ∈ windows → ma_name w ∉ ma.*1) →
       ma'.*1 = ma.*1 ++ (ma_name <$> windows)).
Proof.
  intros Hadj. revert ma. induction windows as [|w rest IH]; intros ma Hnd.
  - exists ma. split; [done|]. split; [done|]. split.
    + intros n s. split.
      * intros Hin. right. split; [done|]. intros w Hw. by apply elem_of_nil in Hw.
      * intros [(w & Hw & _)|[Hin _]]; [by apply elem_of_nil in Hw | done].
    + intros _ _. by rewrite app_nil_r.
  - cbn [moving_averages_from]. rewrite (getitem_present _ _ _ Hadj).
    change (Ok xs ≫= ?k) with (k xs). cbv beta.
    set (ma1 := setitem ma (ma_name w) (rolling mean w (of_obs xs))).
    destruct (IH ma1) as (ma' & Hrun & Hnd' & Hin' & Hkeys'); [by apply setitem_NoDup|].
    exists ma'. split; [done|]. split; [done|]. split.
    + intros n s. rewrite Hin'. unfold ma1. rewrite setitem_elem_of by done. split.
      * intros [(w' & Hw' & Hn & Hs)|[[[-> ->]|[Hne Hin]] Hrest]].
        -- left. exists w'. split; [by right | done].
        -- left. exists w. split; [by left | done].
        -- right. split; [done|]. intros w' Hw'.
           apply elem_of_cons in Hw' as [->|Hw']; [done | by apply Hrest].
      * intros [(w' & Hw' & -> & ->)|[Hin Hrest]].
        -- apply elem_of_cons in Hw' as [->|Hw']; [|left; by exists w'].
           destruct (decide (w ∈ rest)) as [Hw|Hw]; [left; by exists w|].
           right. split; [by left|]. intros w' Hw' Heq.
           apply ma_name_inj in Heq as ->. done.
        -- right. split.
           ++ right. split; [|done]. apply Hrest. by left.
           ++ intros w' Hw'. apply Hrest. by right.
    + intros Hndw Hfresh. apply NoDup_cons in Hndw as [Hw Hndw].
      rewrite Hkeys'; [|done|].
      * unfold ma1. rewrite setitem_keys.
        destruct (decide (ma_name w ∈ ma.*1)) as [Hin|_].
        -- exfalso. eapply Hfresh; [by left | done].
        -- by rewrite <- app_assoc.
      * intros w' Hw'. unfold ma1. rewrite setitem_keys.
        destruct (decide (ma_name w ∈ ma.*1)) as [Hin|_].
        -- apply Hfresh. by right.
        -- rewrite elem_of_app, list_elem_of_singleton. intros [Hin|Heq].
           ++ eapply Hfresh; [by right | done].
           ++ apply ma_name_inj in Heq as ->. done.
Qed.

Lemma moving_averages_present (data : Frame) xs windows :
  data !! "adjClose" = Some xs →
  ∃ ma, moving_averages data windows = Ok ma
    ∧ NoDup ma.*1
    ∧ (∀ n s, (n, s) ∈ ma ↔
         ∃ w, w ∈ windows ∧ n = ma_name w ∧ s = rolling mean w (of_obs xs))
    ∧ (NoDup windows → ma.*1 = ma_name <$> windows).
Proof.
  intros Hadj.
  destruct (moving_averages_from_present data xs windows [] Hadj)
    as (ma & Hrun & Hnd & Hin & Hkeys); [constructor|].
  exists ma. split; [done|]. split; [done|]. split.
  - intros n s. rewrite Hin. split; [|by left].
    intros [H|[H _]]; [done | by apply elem_of_nil in H].
  - intros Hndw. apply Hkeys; [done|]. intros w _ H. by apply elem_of_nil in H.
Qed.

(** X11.  [moving_averages] returns a frame with one column [ma_<w>] for
    each distinct requested window [w] and no other column: a window that
    is requested twice gives a single column.  When the windows are
    distinct the columns stand in the order of the request.  The column of
    window [w] is as long as the prices, undefined before position [w - 1]
    and from there on the mean of the last [w] prices.  Without the
    [adjClose] column the call raises [KeyError], except for an empty list
    of windows, which never reads the column. *)
Theorem moving_averages_windows (data : Frame) (windows : list nat) :
  (∀ xs, data !! "adjClose" = Some xs →
     ∃ ma, moving_averages data windows = Ok ma
       ∧ NoDup ma.*1
       ∧ (∀ name, name ∈ ma.*1 ↔ ∃ w, w ∈ windows ∧ name = "ma_" +:+ pretty w)
       ∧ (NoDup windows → ma.*1 = (λ w, "ma_" +:+ pretty w) <$> windows)
       ∧ ∀ w s, ("ma_" +:+ pretty w, s) ∈ ma →
           w ∈ windows
           ∧ length s = length xs
           ∧ (∀ i, (i + 1 < w)%nat → (i < length xs)%nat → s !! i = Some NaN)
           ∧ (∀ i, (1 ≤ w)%nat → (w ≤ S i)%nat → (i < length xs)%nat →
                s !! i = Some (Fin (Qsum (take w (drop (S i - w) xs))
                                    / inject_Z (Z.of_nat w)))))
  ∧ (data !! "adjClose" = None →
     moving_averages data windows
     = match windows with
       | [] => Ok []
       | _ :: _ => Raise (KeyError "adjClose")
       end).
Proof.
  split.
  - intros xs H.
    destruct (moving_averages_present data xs windows H) as (ma & Hrun & Hnd & Hin & Hkeys).
    exists ma. split; [done|]. split; [done|]. split; [|split; [exact Hkeys|]].
    + intros name. rewrite list_elem_of_fmap. split.
      * intros ([n s] & -> & Hns). apply Hin in Hns as (w & Hw & -> & _). by exists w.
      * intros (w & Hw & ->). exists (ma_name w, rolling mean w (of_obs xs)).
        split; [done|]. apply Hin. by exists w.
    + intros w s Hws. apply Hin in Hws as (w' & Hw' & Heq & ->).
      apply (ma_name_inj w w') in Heq as <-.
      split; [done|]. split; [by rewrite length_rolling, length_of_obs|]. split.
      * intros i Hw Hi. apply rolling_warmup; [done|]. by rewrite length_of_obs.
      * intros i H1 Hw Hi. by apply rolling_mean_full.
  - intros H. destruct windows as [|w windows]; [done|].
    unfold moving_averages. cbn [moving_averages_from]. by rewrite (getitem_absent _ _ H).
Qed.

Lemma moving_averages_windows_witness :
  ∃ ma, moving_averages df_three [2; 5; 2]%nat = Ok ma
    ∧ NoDup ma.*1
    ∧ (∀ name, name ∈ ma.*1 ↔ ∃ w, w ∈ [2; 5; 2]%nat ∧ name = "ma_" +:+ pretty w)
    ∧ (NoDup [2; 5; 2]%nat → ma.*1 = (λ w, "ma_" +:+ pretty w) <$> [2; 5; 2]%nat)
    ∧ ∀ w s, ("ma_" +:+ pretty w, s) ∈ ma →
        w ∈ [2; 5; 2]%nat
        ∧ length s = 3%nat
        ∧ (∀ i, (i + 1 < w)%nat → (i < 3)%nat → s !! i = Some NaN)
        ∧ (∀ i, (1 ≤ w)%nat → (w ≤ S i)%nat → (i < 3)%nat →
             s !! i = Some (Fin (Qsum (take w (drop (S i - w) [100; 110; 121]))
                                 / inject_Z (Z.of_nat w)))).
Proof.
  apply (proj1 (moving_averages_windows df_three [2; 5; 2]%nat) [100; 110; 121]).
  reflexivity.
Defined.

(** A window requested twice: one column. *)
Lemma moving_averages_repeated_window :
  ∃ s2 s5, moving_averages df_three [2; 5; 2]%nat = Ok [("ma_2", s2); ("ma_5", s5)].
Proof. eexists _, _. vm_compute. reflexivity. Qed.

(** ** The range of the relative strength index *)

Lemma rolling_mean_empty_window s i :
  (i < length s)%nat → rolling mean 0 s !! i = Some NaN.
Proof.
  intros Hi. rewrite rolling_lookup by done. unfold rolling_at, window.
  by rewrite take_0.
Qed.

(** Where the window is full, the two averages of [rsi] are finite and
    non-negative. *)
Lemma rsi_averages xs w i :
  (1 ≤ w)%nat → (w ≤ S i)%nat → (i < length xs)%nat →
  ∃ g l,
    rolling mean w (gain_of (diff (of_obs xs))) !! i = Some (Fin g)
    ∧ rolling mean w (loss_of (diff (of_obs xs))) !! i = Some (Fin l)
    ∧ 0 <= g ∧ 0 <= l.
Proof.
  intros H1 Hw Hi.
  destruct (gain_of_finite xs) as (gq & Hgq & Hgnn).
  destruct (loss_of_finite xs) as (lq & Hlq & Hlnn).
  assert (Hlg : length gq = length xs).
  { rewrite <- (length_of_obs gq), <- Hgq, length_gain_of, length_diff. apply length_of_obs. }
  assert (Hll : length lq = length xs).
  { rewrite <- (length_of_obs lq), <- Hlq, length_loss_of, length_diff. apply length_of_obs. }
  pose proof (inject_nat_pos w H1) as Hwpos.
  eexists _, _. rewrite Hgq, Hlq, !rolling_mean_full by lia.
  split; [reflexivity|]. split; [reflexivity|].
  split; apply Qle_shift_div_l; try done; rewrite Qmult_0_l;
    apply Qsum_nonneg; by apply Forall_take, Forall_drop.
Qed.

Lemma rsi_of_rs_range g l :
  0 <= g → 0 <= l →
  rsi_of_rs (fdiv (Fin g) (Fin l)) = NaN
  ∨ ∃ q, rsi_of_rs (fdiv (Fin g) (Fin l)) = Fin q ∧ 0 <= q ∧ q <= 100.
Proof.
  intros Hg Hl. unfold fdiv. destruct (Qzerob l) eqn:El.
  - destruct (Qzerob g) eqn:Eg; [by left|].
    apply Qzerob_false in Eg.
    assert (Qposb g = true) as -> by (apply Qposb_true; lra).
    right. exists 100. split; [reflexivity|]. lra.
  - apply Qzerob_false in El.
    assert (Hr : 0 <= g / l) by (apply Qle_shift_div_l; lra).
    unfold rsi_of_rs. cbn [fadd fdiv].
    assert (Qzerob (1 + g / l) = false) as -> by (apply Qzerob_false; lra).
    right. eexists. split; [reflexivity|].
    assert (0 <= 100 / (1 + g / l)) by (apply Qle_shift_div_l; lra).
    assert (100 / (1 + g / l) <= 100) by (apply Qle_shift_div_r; lra).
    lra.
Qed.

(** X12.  [rsi] returns a series as long as the prices, undefined during
    the first [window - 1] positions, and every value it holds is either
    undefined or a number between 0 and 100: never an infinity, never out
    of range. *)
Theorem rsi_between_0_and_100 (data : Frame) (xs : list Q) (window : nat) :
  data !! "adjClose" = Some xs →
  ∃ s, rsi data window = Ok s
    ∧ length s = length xs
    ∧ (∀ i, (i + 1 < window)%nat → (i < length xs)%nat → s !! i = Some NaN)
    ∧ Forall (λ v, v = NaN ∨ ∃ q, v = Fin q ∧ 0 <= q ∧ q <= 100) s.
Proof.
  intros Hadj. unfold rsi. rewrite (getitem_present _ _ _ Hadj). simpl.
  eexists. split; [reflexivity|].
  set (AG := rolling mean window (gain_of (diff (of_obs xs)))).
  set (AL := rolling mean window (loss_of (diff (of_obs xs)))).
  assert (HlG : length AG = length xs).
  { unfold AG. by rewrite length_rolling, length_gain_of, length_diff, length_of_obs. }
  assert (HlL : length AL = length xs).
  { unfold AL. by rewrite length_rolling, length_loss_of, length_diff, length_of_obs. }
  assert (Hlg : length (gain_of (diff (of_obs xs))) = length xs)
    by by rewrite length_gain_of, length_diff, length_of_obs.
  assert (Hll : length (loss_of (diff (of_obs xs))) = length xs)
    by by rewrite length_loss_of, length_diff, length_of_obs.
  split; [|split].
  - rewrite length_fmap, length_elementwise. lia.
  - intros i Hw Hi.
    rewrite list_lookup_fmap, (elementwise_lookup fdiv _ _ i NaN NaN); [done| |];
      apply rolling_warmup; lia.
  - apply Forall_lookup. intros i v Hv.
    pose proof (lookup_lt_Some _ _ _ Hv) as Hi.
    rewrite length_fmap, length_elementwise in Hi.
    unfold AG, AL in *. clear AG AL.
    destruct (Nat.le_gt_cases window (S i)) as [Hw|Hw].
    + destruct window as [|w'].
      * rewrite list_lookup_fmap, (elementwise_lookup fdiv _ _ i NaN NaN) in Hv;
          [|apply rolling_mean_empty_window; lia..].
        injection Hv as <-. by left.
      * destruct (rsi_averages xs (S w') i) as (g & l & Hg & Hl & Hgn & Hln); [lia..|].
        rewrite list_lookup_fmap, (elementwise_lookup fdiv _ _ i _ _ Hg Hl) in Hv.
        injection Hv as <-. by apply rsi_of_rs_range.
    + rewrite list_lookup_fmap, (elementwise_lookup fdiv _ _ i NaN NaN) in Hv;
        [|apply rolling_warmup; lia..].
      injection Hv as <-. by left.
Qed.

Lemma rsi_between_0_and_100_witness :
  ∃ s, rsi df_falling 2 = Ok s
    ∧ length s = 3%nat
    ∧ (∀ i, (i + 1 < 2)%nat → (i < 3)%nat → s !! i = Some NaN)
    ∧ Forall (λ v, v = NaN ∨ ∃ q, v = Fin q ∧ 0 <= q ∧ q <= 100) s.
Proof.
  apply (rsi_between_0_and_100 df_falling [121; 110; 100] 2). reflexivity.
Defined.

Lemma gain_loss_of_fall xs k a b :
  xs !! k = Some a → xs !! S k = Some b → b < a →
  gain_of (diff (of_obs xs)) !! S k = Some (Fin 0)
  ∧ loss_of (diff (of_obs xs)) !! S k = Some (Fin (- (b - a))).
Proof.
  intros Ha Hb Hlt. unfold gain_of, loss_of, where_.
  rewrite !list_lookup_fmap, (diff_lookup_S _ _ _ _ Ha Hb).
  cbn -[Qminus Qopp].
  assert (Qnegb (0 - (b - a)) = false) as -> by (apply Qnegb_false; lra).
  assert (Qnegb (b - a - 0) = true) as -> by (apply Qnegb_true; lra).
  done.
Qed.

(** On a strictly decreasing series every full window that reaches past
    the first bar has a zero average gain and a positive average loss. *)
Lemma falling_averages xs w i :
  (∀ k a b, xs !! k = Some a → xs !! S k = Some b → b < a) →
  (1 ≤ w)%nat → (w ≤ S i)%nat → (1 ≤ i)%nat → (i < length xs)%nat →
  ∃ g l,
    rolling mean w (gain_of (diff (of_obs xs))) !! i = Some (Fin g)
    ∧ rolling mean w (loss_of (diff (of_obs xs))) !! i = Some (Fin l)
    ∧ g == 0 ∧ 0 < l.
Proof.
  intros Hdec H1 Hw Hi1 Hi.
  destruct (gain_of_finite xs) as (gq & Hgq & Hgnn).
  destruct (loss_of_finite xs) as (lq & Hlq & Hlnn).
  assert (Hlg : length gq = length xs).
  { rewrite <- (length_of_obs gq), <- Hgq, length_gain_of, length_diff. apply length_of_obs. }
  assert (Hll : length lq = length xs).
  { rewrite <- (length_of_obs lq), <- Hlq, length_loss_of, length_diff. apply length_of_obs. }
  pose proof (inject_nat_pos w H1) as Hwpos.
  eexists _, _. rewrite Hgq, Hlq.
  rewrite !rolling_mean_full by lia.
  split; [reflexivity|]. split; [reflexivity|]. split.
  - assert (Hzero : Forall (λ q, q == 0) gq).
    { apply Forall_lookup. intros j q Hq.
      pose proof (lookup_lt_Some _ _ _ Hq) as Hj.
      assert (Hobs : gain_of (diff (of_obs xs)) !! j = Some (Fin q))
        by by rewrite Hgq, of_obs_lookup, Hq.
      destruct (lookup_lt_is_Some_2 xs j) as [b Hb]; [lia|]. destruct j as [|k].
      - rewrite (gain_of_lookup_0 _ _ Hb) in Hobs. by injection Hobs as <-.
      - destruct (lookup_lt_is_Some_2 xs k) as [a Ha]; [lia|].
        destruct (gain_loss_of_fall _ _ _ _ Ha Hb (Hdec _ _ _ Ha Hb)) as [Hg _].
        rewrite Hg in Hobs. by injection Hobs as <-. }
    rewrite (Qsum_zero (take w (drop (S i - w) gq))) by by apply Forall_take, Forall_drop.
    unfold Qdiv. apply Qmult_0_l.
  - destruct i as [|k]; [lia|].
    destruct (lookup_lt_is_Some_2 xs k) as [a Ha]; [lia|].
    destruct (lookup_lt_is_Some_2 xs (S k)) as [b Hb]; [lia|].
    destruct (gain_loss_of_fall _ _ _ _ Ha Hb (Hdec _ _ _ Ha Hb)) as [_ Hl].
    rewrite Hlq, of_obs_lookup in Hl.
    destruct (lq !! S k) as [l'|] eqn:Hl'; [|done]. injection Hl as ->.
    assert (0 < Qsum (take w (drop (S (S k) - w) lq))) as Hsum.
    { apply (Qsum_pos _ (w - 1) (- (b - a))).
      - by apply Forall_take, Forall_drop.
      - rewrite full_window_lookup by lia.
        replace (S (S k) - w + (w - 1))%nat with (S k) by lia. done.
      - specialize (Hdec _ _ _ Ha Hb). lra. }
    apply Qlt_shift_div_l; lra.
Qed.

(** X13.  On a strictly decreasing series [rsi] is 0 at every position
    [i >= 1] whose window is full: the mirror image of the value 100 on a
    rising series. *)
Theorem rsi_falling_series_is_zero
    (data : Frame) (xs : list Q) (window i : nat) :
  data !! "adjClose" = Some xs →
  (∀ k a b, xs !! k = Some a → xs !! S k = Some b → b < a) →
  (1 ≤ window)%nat → (window ≤ S i)%nat → (1 ≤ i)%nat → (i < length xs)%nat →
  ∃ s q, rsi data window = Ok s ∧ s !! i = Some (Fin q) ∧ q == 0.
Proof.
  intros Hadj Hdec H1 Hw Hi1 Hi.
  destruct (falling_averages xs window i Hdec H1 Hw Hi1 Hi)
    as (g & l & Hg & Hl & Hg0 & Hlpos).
  destruct (rsi_lookup _ _ _ _ _ _ Hadj Hg Hl) as (s & Hs & Hsi).
  exists s. rewrite Hsi. unfold fdiv.
  assert (Qzerob l = false) as -> by (apply Qzerob_false; lra).
  assert (Hr : g / l == 0) by (rewrite Hg0; unfold Qdiv; apply Qmult_0_l).
  unfold rsi_of_rs. cbn [fadd fdiv].
  assert (Qzerob (1 + g / l) = false) as -> by (apply Qzerob_false; lra).
  eexists. split; [done|]. split; [reflexivity|].
  rewrite Hr. reflexivity.
Qed.

Lemma rsi_falling_series_is_zero_witness :
  ∃ s q, rsi df_falling 2 = Ok s ∧ s !! 1%nat = Some (Fin q) ∧ q == 0.
Proof.
  apply (rsi_falling_series_is_zero df_falling [121; 110; 100] 2%nat 1%nat).
  - reflexivity.
  - intros [|[|[|k]]] a b Ha Hb; simplify_eq/=; reflexivity.
  - lia.
  - lia.
  - lia.
  - simpl. lia.
Defined.

(** ** Signs of the average true range and order of the bands *)

Lemma rolling_mean_nonneg (qs : list Q) w :
  Forall (λ q, 0 <= q) qs →
  Forall (λ v, v = NaN ∨ ∃ q, v = Fin q ∧ 0 <= q) (rolling mean w (of_obs qs)).
Proof.
  intros Hnn. apply Forall_lookup. intros i v Hv.
  pose proof (lookup_lt_Some _ _ _ Hv) as Hi.
  rewrite length_rolling, length_of_obs in Hi.
  destruct (Nat.le_gt_cases w (S i)) as [Hw|Hw].
  - destruct w as [|w'].
    + rewrite rolling_mean_empty_window in Hv by by rewrite length_of_obs.
      injection Hv as <-. by left.
    + rewrite rolling_mean_full in Hv by lia. injection Hv as <-.
      right. eexists. split; [reflexivity|].
      apply Qle_shift_div_l; [apply inject_nat_pos; lia|]. rewrite Qmult_0_l.
      apply Qsum_nonneg. by apply Forall_take, Forall_drop.
  - rewrite rolling_warmup in Hv by (rewrite ?length_of_obs; lia).
    injection Hv as <-. by left.
Qed.

Lemma atr_present (data : Frame) hs ls cs w :
  data !! "high" = Some hs → data !! "low" = Some ls → data !! "adjClose" = Some cs →
  atr data w = Ok (rolling mean w (true_range (of_obs hs) (of_obs ls) (of_obs cs))).
Proof.
  intros Hh Hl Hc. unfold atr. rewrite bool_decide_true.
  - simpl. by rewrite (getitem_present _ _ _ Hh), (getitem_present _ _ _ Hl),
      (getitem_present _ _ _ Hc).
  - rewrite required_columns_present, Hh, Hl, Hc. eauto.
Qed.

Lemma true_range_nonneg hs ls cs tr :
  true_range (of_obs hs) (of_obs ls) (of_obs cs) = of_obs tr →
  (∀ i h l, hs !! i = Some h → ls !! i = Some l → l <= h) →
  Forall (λ q, 0 <= q) tr.
Proof.
  intros Htr Hhl. apply Forall_lookup. intros i q Hq.
  assert (Hv : true_range (of_obs hs) (of_obs ls) (of_obs cs) !! i = Some (Fin q))
    by by rewrite Htr, of_obs_lookup, Hq.
  pose proof (lookup_lt_Some _ _ _ Hv) as Hi. rewrite length_true_range in Hi.
  destruct (lookup_lt_is_Some_2 hs i) as [h Hh]; [lia|].
  destruct (lookup_lt_is_Some_2 ls i) as [l Hl]; [lia|].
  destruct (lookup_lt_is_Some_2 cs i) as [c Hc]; [lia|].
  destruct i as [|t].
  - rewrite (true_range_first _ _ _ _ _ _ Hh Hl Hc) in Hv. injection Hv as <-.
    specialize (Hhl _ _ _ Hh Hl). lra.
  - destruct (lookup_lt_is_Some_2 cs t) as [cp Hp]; [lia|].
    destruct (true_range_next _ _ _ _ _ _ _ _ Hh Hl Hc Hp) as (v & Hv' & Hmax).
    rewrite Hv' in Hv. injection Hv as <-. rewrite Hmax.
    eapply Qle_trans; [apply (Qabs_nonneg (l - cp))|]. apply Q.le_max_r.
Qed.

(** X14.  When no bar has its high below its low, [atr] never returns a
    negative value: every entry of the series is undefined or a
    non-negative number. *)
Theorem atr_never_negative
    (data : Frame) (hs ls cs : list Q) (window : nat) :
  data !! "high" = Some hs → data !! "low" = Some ls → data !! "adjClose" = Some cs →
  (∀ i h l, hs !! i = Some h → ls !! i = Some l → l <= h) →
  ∃ s, atr data window = Ok s
    ∧ length s = (length hs `min` (length ls `min` length cs))%nat
    ∧ Forall (λ v, v = NaN ∨ ∃ q, v = Fin q ∧ 0 <= q) s.
Proof.
  intros Hh Hl Hc Hhl. rewrite (atr_present _ _ _ _ _ Hh Hl Hc).
  eexists. split; [reflexivity|]. split.
  - by rewrite length_rolling, length_true_range.
  - destruct (true_range_finite hs ls cs) as [tr Htr]. rewrite Htr.
    apply rolling_mean_nonneg. by eapply true_range_nonneg.
Qed.

Lemma atr_never_negative_witness :
  ∃ s, atr df_ohlc 2 = Ok s
    ∧ length s = (3 `min` (3 `min` 3))%nat
    ∧ Forall (λ v, v = NaN ∨ ∃ q, v = Fin q ∧ 0 <= q) s.
Proof.
  apply (atr_never_negative df_ohlc [11; 12; 13] [9; 10; 11] [10; 11; 12] 2).
  - reflexivity.
  - reflexivity.
  - reflexivity.
  - intros [|[|[|i]]] h l Hh Hl; simplify_eq/=; discriminate.
Defined.

Lemma rolling_finite_value agg w (s : Series) i q :
  rolling agg w s !! i = Some (Fin q) → ∃ qs, agg qs = Fin q.
Proof.
  intros H. pose proof (lookup_lt_Some _ _ _ H) as Hi. rewrite length_rolling in Hi.
  rewrite rolling_lookup in H by done. injection H as H. unfold rolling_at in H.
  destruct (i + 1 <? w)%nat; [done|].
  destruct (mapM finite (window w i s)) as [qs|]; [eauto | done].
Qed.

Lemma sample_std_nonneg (sqrt : Q → Q) qs q :
  (∀ v, 0 <= v → 0 <= sqrt v) → sample_std sqrt qs = Fin q → 0 <= q.
Proof.
  intros Hsqrt. unfold sample_std, fsqrt.
  destruct (length qs <=? 1)%nat; [done|].
  destruct (Qnegb (sq_dev qs / (Qlen qs - 1))) eqn:E; [done|].
  intros [= <-]. apply Hsqrt. by apply Qnegb_false.
Qed.

(** X15.  With a non-negative [num_std] (and a square root that is not
    negative), the bands are in order wherever they are defined:
    [lower <= middle <= upper]. *)
Theorem bollinger_bands_ordered
    (sqrt : Q → Q) (data : Frame) (xs : list Q) (window : nat) (num_std : Q) :
  data !! "adjClose" = Some xs →
  (∀ v, 0 <= v → 0 <= sqrt v) →
  0 <= num_std →
  ∃ bb, bollinger_bands sqrt data window num_std = Ok bb
    ∧ ∀ i u l, upper bb !! i = Some (Fin u) → lower bb !! i = Some (Fin l) →
        ∃ m, middle bb !! i = Some (Fin m) ∧ l <= m ∧ m <= u.
Proof.
  intros Hadj Hsqrt Hk. unfold bollinger_bands.
  rewrite (getitem_present _ _ _ Hadj). simpl.
  eexists. split; [reflexivity|]. cbn [upper middle lower].
  intros i u l Hu Hl. unfold elementwise in Hu, Hl.
  rewrite lookup_zip_with, list_lookup_fmap in Hu, Hl.
  destruct (rolling mean window (of_obs xs) !! i) as [m|]; [|done].
  destruct (rolling (sample_std sqrt) window (of_obs xs) !! i) as [s|] eqn:Hs; [|done].
  simpl in Hu, Hl. injection Hu as Hu. injection Hl as Hl.
  apply fadd_finite_inv in Hu as (x & y & -> & Hy & ->).
  apply fmul_finite_inv in Hy as (q & -> & ->).
  simpl in Hl. injection Hl as <-.
  apply rolling_finite_value in Hs as [qs Hqs].
  pose proof (sample_std_nonneg sqrt qs q Hsqrt Hqs) as Hq.
  pose proof (Qmult_le_0_compat _ _ Hq Hk).
  exists x. split; [done|]. split; lra.
Qed.

Lemma bollinger_bands_ordered_witness :
  ∃ bb, bollinger_bands (λ q, q) df_three 2 2 = Ok bb
    ∧ ∀ i u l, upper bb !! i = Some (Fin u) → lower bb !! i = Some (Fin l) →
        ∃ m, middle bb !! i = Some (Fin m) ∧ l <= m ∧ m <= u.
Proof.
  apply (bollinger_bands_ordered (λ q, q) df_three [100; 110; 121] 2 2).
  - reflexivity.
  - intros v Hv. exact Hv.
  - discriminate.
Defined.

(** ** MACD of a flat series *)

Lemma weighted_sum_constant alpha (l : list Q) c :
  Forall (λ x, x == c) l →
  weighted_sum alpha l == c * Qsum (ewma_weights alpha (length l)).
Proof.
  induction 1 as [|x l Hx _ IH].
  - change (weighted_sum alpha []) with 0.
    change (Qsum (ewma_weights alpha (length []))) with 0. ring.
  - cbn [length]. rewrite weighted_sum_cons, weights_total_succ, IH, Hx. ring.
Qed.

Lemma ewma_constant alpha (xs : list Q) c :
  0 <= 1 - alpha → Forall (λ x, x == c) xs → Forall (λ y, y == c) (ewma alpha xs).
Proof.
  intros Hr Hall. unfold ewma. apply Forall_fmap, Forall_forall.
  intros t Ht. apply elem_of_seq in Ht as [_ Ht]. simpl in Ht. simpl.
  unfold ewma_at.
  rewrite (weighted_sum_constant alpha (reverse (take (S t) xs)) c)
    by by apply Forall_reverse, Forall_take.
  rewrite length_reverse, length_take.
  replace (S t `min` length xs)%nat with (S t) by lia.
  pose proof (weights_total_ge_1 alpha t Hr). field. lra.
Qed.

Lemma Forall2_Qeq_constant (ys zs : list Q) c :
  Forall2 Qeq ys zs → Forall (λ z, z == c) zs → Forall (λ y, y == c) ys.
Proof.
  induction 1 as [|y z ys zs Hyz _ IH]; intros Hall; [constructor|].
  apply Forall_cons in Hall as [Hz Hall]. constructor; [by rewrite Hyz | by apply IH].
Qed.

Lemma zip_minus_constant (a b : list Q) c :
  Forall (λ x, x == c) a → Forall (λ x, x == c) b →
  Forall (λ d, d == 0) (zip_with Qminus a b).
Proof.
  intros Ha. revert b. induction Ha as [|x a Hx _ IH]; intros b Hb; [constructor|].
  destruct Hb as [|y b Hy Hb]; [constructor|].
  cbn [zip_with]. constructor; [rewrite Hx, Hy; ring | by apply IH].
Qed.

(** X16.  On a flat price series [macd] is identically zero: both
    averages stay at the price, so the MACD line and its signal line are 0
    at every position. *)
Theorem macd_flat_series_is_zero
    (data : Frame) (xs : list Q) (c : Q) (fast slow signal : positive) :
  data !! "adjClose" = Some xs →
  Forall (λ x, x == c) xs →
  ∃ macd_line signal_line : list Q,
    macd data fast slow signal = Ok (of_obs macd_line, of_obs signal_line)
    ∧ length macd_line = length xs ∧ length signal_line = length xs
    ∧ Forall (λ d, d == 0) macd_line ∧ Forall (λ d, d == 0) signal_line.
Proof.
  intros Hadj Hflat.
  destruct (ewm_mean_finite fast xs) as (ef & Hef & Hlf & _ & Hqf).
  destruct (ewm_mean_finite slow xs) as (es & Hes & Hls & _ & Hqs).
  destruct (ewm_mean_finite signal (zip_with Qminus ef es)) as (sl & Hsl & Hlsl & _ & Hqsl).
  assert (Hml : Forall (λ d, d == 0) (zip_with Qminus ef es)).
  { apply (zip_minus_constant _ _ c).
    - eapply Forall2_Qeq_constant; [exact Hqf|].
      apply ewma_constant; [apply alpha_of_span_range | done].
    - eapply Forall2_Qeq_constant; [exact Hqs|].
      apply ewma_constant; [apply alpha_of_span_range | done]. }
  exists (zip_with Qminus ef es), sl. split; [|split; [|split; [|split]]].
  - unfold macd. rewrite (getitem_present _ _ _ Hadj). simpl.
    by rewrite Hef, Hes, elementwise_fsub_of_obs, Hsl.
  - rewrite length_zip_with. lia.
  - rewrite Hlsl, length_zip_with. lia.
  - done.
  - eapply Forall2_Qeq_constant; [exact Hqsl|].
    apply ewma_constant; [apply alpha_of_span_range | done].
Qed.

Lemma macd_flat_series_is_zero_witness :
  ∃ macd_line signal_line : list Q,
    macd df_flat 12 26 9 = Ok (of_obs macd_line, of_obs signal_line)
    ∧ length macd_line = 4%nat ∧ length signal_line = 4%nat
    ∧ Forall (λ d, d == 0) macd_line ∧ Forall (λ d, d == 0) signal_line.
Proof.
  apply (macd_flat_series_is_zero df_flat [7; 7; 7; 7] 7 12 26 9).
  - reflexivity.
  - repeat constructor.
Defined.

(** ** The indicators on rows of the store *)

Lemma frame_of_rows_columns df :
  Pipeline.frame_of_rows df !! "adjClose" = Some (adjClose <$> df)
  ∧ Pipeline.frame_of_rows df !! "high" = Some (high <$> df)
  ∧ Pipeline.frame_of_rows df !! "low" = Some (low <$> df).
Proof. repeat split; reflexivity. Qed.

(** X17.  On the frame of any list of rows, which is what the store and
    the fetcher deliver to the analyzer, no indicator raises: the column
    checks of [calculate_returns] and [atr] pass and the lookups of [rsi],
    [macd], [bollinger_bands] and [moving_averages] succeed; each result
    has one entry per row. *)
Theorem indicators_on_rows
    (sqrt : Q → Q) (df : list Row) (window : nat) (fast slow signal : positive)
    (num_std : Q) (windows : list nat) :
  ∃ r rs m bb a ma,
    calculate_returns (Pipeline.frame_of_rows df) = Ok r
    ∧ rsi (Pipeline.frame_of_rows df) window = Ok rs
    ∧ macd (Pipeline.frame_of_rows df) fast slow signal = Ok m
    ∧ bollinger_bands sqrt (Pipeline.frame_of_rows df) window num_std = Ok bb
    ∧ atr (Pipeline.frame_of_rows df) window = Ok a
    ∧ moving_averages (Pipeline.frame_of_rows df) windows = Ok ma
    ∧ length (daily r) = length df ∧ length (cumulative r) = length df
    ∧ length rs = length df
    ∧ length m.1 = length df ∧ length m.2 = length df
    ∧ length (upper bb) = length df ∧ length (middle bb) = length df
    ∧ length (lower bb) = length df
    ∧ length a = length df
    ∧ Forall (λ '(w, s), length s = length df) ma.
Proof.
  destruct (frame_of_rows_columns df) as (Hc & Hh & Hl).
  destruct (ewm_mean_finite fast (adjClose <$> df)) as (ef & Hef & Hlf & _).
  destruct (ewm_mean_finite slow (adjClose <$> df)) as (es & Hes & Hls & _).
  destruct (ewm_mean_finite signal (zip_with Qminus ef es)) as (sl & Hsl & Hlsl & _).
  rewrite length_fmap in Hlf, Hls.
  destruct (moving_averages_present _ _ windows Hc) as (ma & Hma & _ & Hin & _).
  eexists _, _, _, _, _, ma.
  split. { unfold calculate_returns.
           by rewrite (has_column_true _ _ _ Hc), (getitem_present _ _ _ Hc). }
  split. { unfold rsi. by rewrite (getitem_present _ _ _ Hc). }
  split. { unfold macd. rewrite (getitem_present _ _ _ Hc). simpl.
           by rewrite Hef, Hes, elementwise_fsub_of_obs, Hsl. }
  split. { unfold bollinger_bands. by rewrite (getitem_present _ _ _ Hc). }
  split. { by apply atr_present. }
  split. { exact Hma. }
  cbn [daily cumulative upper middle lower fst snd].
  assert (Hobs : length (of_obs (adjClose <$> df)) = length df)
    by by rewrite length_of_obs, length_fmap.
  repeat split.
  - by rewrite length_pct_change.
  - unfold cumprod. by rewrite length_cumprod_from, length_fmap, length_pct_change.
  - rewrite length_fmap, length_elementwise, !length_rolling, length_gain_of,
      length_loss_of, !length_diff. lia.
  - rewrite length_of_obs, length_zip_with. lia.
  - rewrite length_of_obs, Hlsl, length_zip_with. lia.
  - rewrite length_elementwise, length_fmap, !length_rolling. lia.
  - by rewrite length_rolling.
  - rewrite length_elementwise, length_fmap, !length_rolling. lia.
  - rewrite length_rolling, length_true_range, !length_fmap. lia.
  - apply Forall_forall. intros [n s] Hns.
    apply Hin in Hns as (w & _ & _ & ->). by rewrite length_rolling.
Qed.

(** ** What the coordinator never does *)

(** X19.  A call of the coordinator never removes or rewrites a stored
    row and never drops a table: every table holds afterwards what it held
    before, possibly followed by new rows (this also holds when the call
    ends in an exception); and the call makes at most one request to the
    remote service. *)
Theorem resolve_only_appends
    (env : Env) (ticker : string) (params : Main.Params) (w : World) :
  (∀ t rows, tables w !! t = Some rows →
     ∃ rows', tables (Main._get_data_with_cache env ticker params w).2 !! t
              = Some (rows ++ rows'))
  ∧ (requests (Main._get_data_with_cache env ticker params w).2 = requests w
     ∨ requests (Main._get_data_with_cache env ticker params w).2
       = requests w ++ [DataFetch.request_of env ticker (Main.start_date params)
                          (Main.end_date params) (Main.freq params)]).
Proof.
  assert (Hkeep : ∀ t rows, tables w !! t = Some rows →
            ∃ rows', tables w !! t = Some (rows ++ rows')).
  { intros t rows Ht. exists []. by rewrite app_nil_r. }
  destruct (resolve_cases env ticker params w)
    as [(rows & Ht & Hpos & Hn & Hne)|[(rows & msg & Ht & Hpos & Hn)|Hmiss]].
  - rewrite (resolve_hit env _ _ _ _ Hn Ht Hpos Hne). simpl. auto.
  - rewrite (resolve_unreadable env _ _ _ _ _ Hn Ht Hpos). simpl. auto.
  - rewrite (resolve_miss env _ _ _ Hmiss).
    destruct (fetch_data_one_request_aux env ticker (Main.start_date params)
                (Main.end_date params) (Main.freq params)
                (printed ("Fetching new data for " +:+ ticker +:+ "...") w))
      as (df & w1 & Hf & Hreq & Htab).
    rewrite (resolve_after_fetch env _ _ _ _ _ Hf). simpl in Hreq, Htab.
    assert (Happ : ∀ t rows, tables w !! t = Some rows →
              ∃ rows', <[ticker := default [] (tables w !! ticker)
                                   ++ (Database.to_sql_row <$> df)]> (tables w)
                       !! t = Some (rows ++ rows')).
    { intros t rows Hrows. destruct (decide (ticker = t)) as [->|Hne].
      - rewrite lookup_insert_eq, Hrows. eauto.
      - rewrite lookup_insert_ne by done. auto. }
    destruct df as [|r df]; [|destruct (0 <? Main.cache_days params)%Z]; simpl;
      rewrite ?Htab, ?Hreq; (split; [done | by right]).
Qed.

(** ** The statements above at concrete inputs *)

Lemma save_append_then_load_witness :
  ∃ w', Database.save_data [bar "2020-01-02" 75] "AAPL" Database.append world_aapl_2020
        = (Ok (), w')
    ∧ Database.load_data env_no_prices "AAPL" None None w'
      = (Ok ((Database.of_sql_row <$> [stored "2020-01-02" 75]) ++ [bar "2020-01-02" 75]),
         w')
    ∧ Database.load_data env_no_prices "AAPL" None (Some "2020-01-02") w' = (Ok [], w').
Proof.
  destruct (save_append_then_load env_no_prices [bar "2020-01-02" 75] "AAPL"
              world_aapl_2020)
    as (w' & Hsave & _ & _ & Hload & _).
  destruct (Hload eq_refl) as [Hall Hend].
  exists w'. split; [exact Hsave|]. split; [exact Hall|].
  rewrite (Hend None "2020-01-02"); [reflexivity | discriminate | by repeat constructor].
Defined.

Lemma fetch_data_one_request_witness :
  ∃ df w', DataFetch.fetch_data env_three_bars "AAPL" "2024-03-01" None "daily"
             world_aapl_2020 = (Ok df, w')
    ∧ requests w'
      = requests world_aapl_2020
        ++ [ {| req_ticker := "AAPL"; req_start := "2024-03-01";
                req_end := "2024-06-03"; req_freq := "daily" |} ]
    ∧ tables w' = tables world_aapl_2020.
Proof.
  destruct (fetch_data_one_request env_three_bars "AAPL" "2024-03-01" None "daily"
              world_aapl_2020) as (df & w' & Hf & Hreq & Htab & _).
  exists df, w'. split; [exact Hf|]. split; [exact Hreq | exact Htab].
Defined.

Lemma indicators_on_rows_witness :
  ∃ rs, rsi (Pipeline.frame_of_rows [bar "2024-03-01" 10; bar "2024-03-04" 11]) 2 = Ok rs
        ∧ length rs = 2%nat.
Proof.
  destruct (indicators_on_rows (λ q, q) [bar "2024-03-01" 10; bar "2024-03-04" 11]
              2 12 26 9 2 [20; 50; 200]%nat)
    as (r & rs & m & bb & a & ma & _ & Hrsi & _ & _ & _ & _ & _ & _ & Hlen & _).
  exists rs. split; [exact Hrsi | exact Hlen].
Defined.

Lemma resolve_only_appends_witness :
  ∃ rows',
    tables (Main._get_data_with_cache env_three_bars "AAPL" (params_march 30)
              world_aapl_2020).2 !! "AAPL"
    = Some ([stored "2020-01-02" 75] ++ rows').
Proof.
  apply (proj1 (resolve_only_appends env_three_bars "AAPL" (params_march 30)
                  world_aapl_2020) "AAPL").
  reflexivity.
Defined.
